(** * httpx: handlers that return their response

    A shallow embedding of [httpx.go] (package [httpx]) and the properties
    of its builder type [Response], of the structured error codes
    [ErrorJSONCode] and of the function [fireAfterMiddleware], which turns
    the value returned by a handler into writes on the
    [http.ResponseWriter].

    Go pointers to a [Response] are modelled by the record they point to:
    the builder methods mutate their receiver and return it, so a chain
    [Code(c).JSON(v).Text(s)] threads one record through the calls.  Side
    effects on the outside world (the response writer, the readers captured
    by body closures) are threaded through a state monad that can also
    panic. *)

From stdpp Require Import base strings gmap list.
From Stdlib Require Import ZArith.

Open Scope Z_scope.
Open Scope string_scope.
Open Scope list_scope.

(** ** Go values *)

(** A Go [error] other than a [*Response], identified by its message. *)
Inductive go_error := errorString (msg : string).

(** [err.Error()] *)
Definition error_Error (e : go_error) : string :=
  match e with errorString msg => msg end.

(** [fmt.Errorf(prefix + ": %w", err)] *)
Definition fmt_Errorf_w (prefix : string) (e : go_error) : go_error :=
  errorString (prefix +:+ ": " +:+ error_Error e).

(** The values of type [any] that reach the JSON encoder: [any_nil] is the
    nil interface, the other constructors carry a dynamic value.  A pointer
    is nil ([any_pointer None]) or points to a value; held in an [any], a
    nil pointer is a value like the others and not the nil interface. *)
#[warnings="-register-all"]
Inductive any :=
| any_nil
| any_bool (b : bool)
| any_int (n : Z)
| any_string (s : string)
| any_pointer (target : option any)
| any_slice (l : list any)
| any_map (m : gmap string any).

(** [value != nil] on an [any]. *)
Definition any_is_nil (v : any) : bool :=
  match v with any_nil => true | _ => false end.

(** ** Results and panics *)

Inductive result (A : Type) :=
| Ok (a : A)
| Panic (msg : string).
Arguments Ok {A} a.
Arguments Panic {A} msg.

Definition is_Ok {A} (r : result A) : Prop :=
  match r with Ok _ => True | Panic _ => False end.

(** A computation over a state [S] that returns an [A] or panics; the
    state reached at the time of a panic is kept, as the effects of a Go
    function that panics are. *)
Definition Go (S A : Type) : Type := S → S * result A.

Definition ret {S A} (a : A) : Go S A := λ s, (s, Ok a).

Definition bind {S A B} (m : Go S A) (k : A → Go S B) : Go S B :=
  λ s, match m s with
       | (s', Ok a) => k a s'
       | (s', Panic msg) => (s', Panic msg)
       end.

Definition panic {S A} (msg : string) : Go S A := λ s, (s, Panic msg).

Definition modify {S} (f : S → S) : Go S unit := λ s, (f s, Ok tt).

(** [defer cleanup(); body]: the deferred call runs when [body] returns
    and when it panics; a panic of the deferred call replaces the
    outcome. *)
Definition defer_ {S A} (cleanup : Go S unit) (body : Go S A) : Go S A :=
  λ s, let '(s1, r) := body s in
       match cleanup s1 with
       | (s2, Ok _) => (s2, r)
       | (s2, Panic msg) => (s2, Panic msg)
       end.

(** Runs a computation over a part [T] of the state [S]. *)
Definition zoom {S T A} (get : S → T) (set : T → S → S) (m : Go T A) : Go S A :=
  λ s, let '(t, r) := m (get s) in (set t s, r).

Declare Scope go_scope.
Delimit Scope go_scope with go.
Notation "'let*' x ':=' m 'in' k" := (bind m (λ x, k))
  (at level 10, x name, m at level 100, k at level 200) : go_scope.
Notation "m1 '>>' m2" := (bind m1 (λ _, m2))
  (at level 100, m2 at level 200, right associativity) : go_scope.
Open Scope go_scope.

Definition nil_dereference : string :=
  "runtime error: invalid memory address or nil pointer dereference".

Definition nil_map_assignment : string :=
  "assignment to entry in nil map".

(** ** [io.Writer], [io.Reader], [io.Copy] *)

(** An [io.Writer]: the bytes it has accepted, and how many more it takes
    before [Write] fails ([None]: it never fails, as a [bytes.Buffer]). *)
Record io_Writer := mkWriter {
  written : string;
  room : option nat
}.

Definition bytes_Buffer : io_Writer := mkWriter "" None.

Definition ErrShortWrite : go_error := errorString "short write".

(** [w.Write(p)]: a writer out of room accepts the bytes that fit and
    returns an error. *)
Definition Writer_Write (p : string) (w : io_Writer) : io_Writer * option go_error :=
  match room w with
  | None => (mkWriter (written w +:+ p) None, None)
  | Some n =>
      if (String.length p <=? n)%nat
      then (mkWriter (written w +:+ p) (Some (n - String.length p)%nat), None)
      else (mkWriter (written w +:+ String.substring 0 n p) (Some 0%nat), Some ErrShortWrite)
  end.

(** An [io.Reader] (also an [io.ReadCloser]): the chunks its [Read] calls
    will still deliver, the error that ends the stream ([None]: [io.EOF]),
    and the number of [Close] calls received. *)
Record io_Reader := mkReader {
  pending : list string;
  fault : option go_error;
  closed : nat
}.

(** What a body closure acts on: the writer it is given and the heap of
    reader objects, addressed by reference.  A reference absent from the
    heap stands for a nil reader. *)
Record IO := mkIO {
  dst : io_Writer;
  heap : gmap nat io_Reader
}.

Definition io_Write (p : string) : Go IO (option go_error) :=
  λ s, let '(w', e) := Writer_Write p (dst s) in (mkIO w' (heap s), Ok e).

(** The loop of [io.Copy]: every chunk read is written; the first failed
    write stops the loop with its error. Returns the writer, the chunks left
    unread and the write error. *)
Fixpoint copy_chunks (chunks : list string) (w : io_Writer)
  : io_Writer * list string * option go_error :=
  match chunks with
  | [] => (w, [], None)
  | c :: rest =>
      match Writer_Write c w with
      | (w', Some e) => (w', rest, Some e)
      | (w', None) => copy_chunks rest w'
      end
  end.

(** [_, err := io.Copy(w, reader)] *)
Definition io_Copy (reader : nat) : Go IO (option go_error) :=
  λ s, match heap s !! reader with
       | None => (s, Panic nil_dereference)
       | Some rd =>
           let '(w', rest, e) := copy_chunks (pending rd) (dst s) in
           let rd' := mkReader rest (fault rd) (closed rd) in
           (mkIO w' (<[reader := rd']> (heap s)),
            Ok (match e with Some we => Some we | None => fault rd end))
       end.

(** [reader.Close()] *)
Definition Reader_Close (reader : nat) : Go IO unit :=
  λ s, match heap s !! reader with
       | None => (s, Panic nil_dereference)
       | Some rd =>
           (mkIO (dst s) (<[reader := mkReader (pending rd) (fault rd) (S (closed rd))]> (heap s)),
            Ok tt)
       end.

(** ** Go maps and their iteration order *)

(** A [map[string]string]: [None] is the nil map, which reads as empty and
    panics on assignment. *)
Abbreviation go_map := (option (gmap string string)).

Definition entries (m : go_map) : gmap string string := default ∅ m.

(** [for k, v := range m] visits the entries in an order the runtime
    chooses.  The choice is an input [ord]: each number picks the next
    entry among those not yet visited. *)
Fixpoint shuffle {A} (ord : list nat) (l : list A) : list A :=
  match ord with
  | [] => l
  | n :: ord' =>
      let i := (n `mod` length l)%nat in
      match l !! i with
      | Some x => x :: shuffle ord' (delete i l)
      | None => l
      end
  end.

Definition range (ord : list nat) (m : go_map) : list (string * string) :=
  shuffle ord (map_to_list (entries m)).

(** ** Header keys of [net/http] *)

Definition byte_between (lo hi : N) (c : Ascii.ascii) : bool :=
  let n := Ascii.N_of_ascii c in (lo <=? n)%N && (n <=? hi)%N.

Definition is_lower (c : Ascii.ascii) : bool := byte_between 97 122 c.
Definition is_upper (c : Ascii.ascii) : bool := byte_between 65 90 c.
Definition is_digit (c : Ascii.ascii) : bool := byte_between 48 57 c.

Definition to_upper (c : Ascii.ascii) : Ascii.ascii :=
  Ascii.ascii_of_N (Ascii.N_of_ascii c - 32).
Definition to_lower (c : Ascii.ascii) : Ascii.ascii :=
  Ascii.ascii_of_N (Ascii.N_of_ascii c + 32).

Definition hyphen : Ascii.ascii := Ascii.ascii_of_N 45.

(** The bytes of a header field name: letters, digits and some signs. *)
Definition validHeaderFieldByte (c : Ascii.ascii) : bool :=
  is_lower c || is_upper c || is_digit c
  || existsb (Ascii.eqb c) (String.list_ascii_of_string "!#$%&'*+-.^_`|~").

(** Upper case for the first letter and for a letter after a hyphen, lower
    case for the other letters. *)
Fixpoint canonical_case (upper : bool) (s : string) : string :=
  match s with
  | EmptyString => EmptyString
  | String c s' =>
      let c' := if upper && is_lower c then to_upper c
                else if negb upper && is_upper c then to_lower c
                else c in
      String c' (canonical_case (Ascii.eqb c' hyphen) s')
  end.

(** [textproto.CanonicalMIMEHeaderKey(s)], the key under which
    [http.Header.Set] stores a value: a key with a byte that is not valid
    in a field name (a space among them) is kept as it is. *)
Definition CanonicalMIMEHeaderKey (s : string) : string :=
  if forallb validHeaderFieldByte (String.list_ascii_of_string s)
  then canonical_case true s
  else s.

(** [h.Set(key, value)] on a [http.Header]. *)
Definition set_header (h : gmap string string) (kv : string * string)
  : gmap string string :=
  <[CanonicalMIMEHeaderKey kv.1 := kv.2]> h.

(** ** The package *)

Definition StatusOK : Z := 200.
Definition StatusBadRequest : Z := 400.

(** [type Response struct { Code int; headers map[string]string;
    Copy func(io.Writer) error }].  The writer handed to [Copy] is the
    [dst] of the state the closure runs on; [None] is the nil func. *)
Record Response := mkResponse {
  Response_Code : Z;
  Response_headers : go_map;
  Response_Copy : option (Go IO (option go_error))
}.

(** [type ErrorJSONCode struct { Code string; Status int; Extra any }] *)
Record ErrorJSONCode := mkErrorJSONCode {
  ErrorJSONCode_Code : string;
  ErrorJSONCode_Status : Z;
  ErrorJSONCode_Extra : any
}.

(** The value a handler returns as [error]: nil is [None] of
    [option error]; a [*Response] is a pointer to a record, not nil. *)
Inductive error :=
| error_Response (res : Response)
| error_other (e : go_error).

Inductive Request := mkRequest (method url : string).

(** The [http.ResponseWriter] of a request: its header map, the status
    lines written so far, each with a snapshot of the header map sent
    along with it, and the connection that receives the body. *)
Record ResponseWriter := mkResponseWriter {
  Header : gmap string string;
  wroteHeader : list (Z * gmap string string);
  conn : io_Writer
}.

(** The calls [fireAfterMiddleware] makes, in the order it makes them.
    The two hooks [CopyErrorHandler] and [DefaultAfterMiddleware] are
    package variables that do nothing until a program replaces them; what
    the package does with them is to call them, and the trace records each
    call with its arguments.  The after-hook is recorded with the writer
    as it is when the hook receives it. *)
Inductive event :=
| CallHeaderSet (key value : string)
| CallWriteHeader (code : Z)
| CallCopy
| CallCopyErrorHandler (err : go_error)
| CallDefaultAfterMiddleware (w : ResponseWriter) (r : Request) (e : Response).

Definition is_CallHeaderSet (e : event) : bool :=
  match e with CallHeaderSet _ _ => true | _ => false end.
Definition is_CallWriteHeader (e : event) : bool :=
  match e with CallWriteHeader _ => true | _ => false end.
Definition is_CallCopy (e : event) : bool :=
  match e with CallCopy => true | _ => false end.
Definition is_CallCopyErrorHandler (e : event) : bool :=
  match e with CallCopyErrorHandler _ => true | _ => false end.
Definition is_CallDefaultAfterMiddleware (e : event) : bool :=
  match e with CallDefaultAfterMiddleware _ _ _ => true | _ => false end.

(** Number of events of a kind in a trace. *)
Definition count (p : event → bool) (t : list event) : nat :=
  length (filter (λ e, p e = true) t).

(** The state a request is served in. *)
Record World := mkWorld {
  rw : ResponseWriter;
  readers : gmap nat io_Reader;
  calls : list event
}.

Definition emit (e : event) : Go World unit :=
  modify (λ s, mkWorld (rw s) (readers s) (calls s ++ [e])).

(** [w.Header().Set(key, value)]: the value replaces the one stored under
    the canonical form of [key]. *)
Definition Header_Set (key value : string) : Go World unit :=
  emit (CallHeaderSet key value) >>
  modify (λ s, mkWorld
    (mkResponseWriter (set_header (Header (rw s)) (key, value))
                      (wroteHeader (rw s)) (conn (rw s)))
    (readers s) (calls s)).

(** [w.WriteHeader(code)] *)
Definition WriteHeader (code : Z) : Go World unit :=
  emit (CallWriteHeader code) >>
  modify (λ s, mkWorld
    (mkResponseWriter (Header (rw s)) (wroteHeader (rw s) ++ [(code, Header (rw s))]) (conn (rw s)))
    (readers s) (calls s)).

(** [res.Copy(w)]: the closure runs on the connection of [w] and on the
    readers. *)
Definition call_Copy (copy : Go IO (option go_error)) : Go World (option go_error) :=
  emit CallCopy >>
  zoom (λ s, mkIO (conn (rw s)) (readers s))
       (λ io s, mkWorld (mkResponseWriter (Header (rw s)) (wroteHeader (rw s)) (dst io))
                        (heap io) (calls s))
       copy.

(** [var CopyErrorHandler = func(err error) {}] *)
Definition CopyErrorHandler (err : go_error) : Go World unit :=
  emit (CallCopyErrorHandler err).

(** [var DefaultAfterMiddleware = func(w http.ResponseWriter, r *http.Request, e error) {}] *)
Definition DefaultAfterMiddleware (r : Request) (e : Response) : Go World unit :=
  λ s, emit (CallDefaultAfterMiddleware (rw s) r e) s.

(** The body of a [for key, value := range ...] loop, run on each entry. *)
Fixpoint for_each {S} (l : list (string * string)) (body : string → string → Go S unit)
  : Go S unit :=
  match l with
  | [] => ret tt
  | (key, value) :: l' => body key value >> for_each l' body
  end.

(** [Code(code)] *)
Definition Code (code : Z) : Response :=
  mkResponse code (Some ∅) None.

(** [NoContent()] *)
Definition NoContent : Response := Code StatusOK.

(** The closure installed by [Text]. *)
Definition copyText (s : string) : Go IO (option go_error) := io_Write s.

(** [r.Text(s)] *)
Definition Text (s : string) (r : Response) : Response :=
  mkResponse (Response_Code r) (Response_headers r) (Some (copyText s)).

(** [r.Headers(m)] *)
Definition Headers (ord : list nat) (m : go_map) (r : Response) : Response :=
  match Response_headers r with
  | Some h =>
      mkResponse (Response_Code r)
        (Some (foldl (λ acc kv, <[kv.1 := kv.2]> acc) h (range ord m)))
        (Response_Copy r)
  | None => mkResponse (Response_Code r) m (Response_Copy r)
  end.

(** The closure installed by [Reader]. *)
Definition copyReader (reader : nat) : Go IO (option go_error) := io_Copy reader.

(** [r.Reader(reader)] *)
Definition Reader (reader : nat) (r : Response) : Response :=
  mkResponse (Response_Code r) (Response_headers r) (Some (copyReader reader)).

(** The closure installed by [ReadCloser]:
    [defer reader.Close(); _, err := io.Copy(w, reader); return err]. *)
Definition copyReadCloser (reader : nat) : Go IO (option go_error) :=
  defer_ (Reader_Close reader) (io_Copy reader).

(** [r.ReadCloser(reader)] *)
Definition ReadCloser (reader : nat) (r : Response) : Response :=
  mkResponse (Response_Code r) (Response_headers r) (Some (copyReadCloser reader)).

(** [r.Error()] *)
Definition Response_Error (r : Response) : Go (gmap nat io_Reader) string :=
  match Response_Copy r with
  | None => panic nil_dereference
  | Some copy =>
      λ h, match copy (mkIO bytes_Buffer h) with
           | (b, Ok (Some err)) =>
               (heap b, Ok (error_Error (fmt_Errorf_w "reading all bytes from Reader" err)))
           | (b, Ok None) => (heap b, Ok (written (dst b)))
           | (b, Panic msg) => (heap b, Panic msg)
           end
  end.

(** [NewCode(code, status)] *)
Definition NewCode (code : string) (status : Z) : ErrorJSONCode :=
  mkErrorJSONCode code status any_nil.

Section Encoder.

(** [json.NewEncoder(w).Encode(value)] first encodes [value], which can
    fail, and then writes the text.  The encoder of the standard library
    is a parameter. *)
Variable json_encode : any → go_error + string.

(** The closure installed by [JSON]. *)
Definition copyJSON (value : any) : Go IO (option go_error) :=
  match json_encode value with
  | inl err => ret (Some err)
  | inr text => io_Write text
  end.

(** [r.JSON(value)] *)
Definition JSON (value : any) (r : Response) : result Response :=
  match Response_headers r with
  | None => Panic nil_map_assignment
  | Some h =>
      Ok (mkResponse (Response_Code r)
            (Some (<["Content-Type" := "application/json"]> h))
            (Some (copyJSON value)))
  end.

(** The map built by [ErrorJSONCode.JSON] from the variadic [extra]. *)
Definition ErrorJSONCode_json (e : ErrorJSONCode) (extra : list any) : gmap string any :=
  let value := match extra with v :: _ => v | [] => any_nil end in
  let json := {[ "code" := any_string (ErrorJSONCode_Code e) ]} in
  if any_is_nil value then json else <["extra" := value]> json.

(** [e.JSON(extra...)] *)
Definition ErrorJSONCode_JSON (e : ErrorJSONCode) (extra : list any) : result Response :=
  JSON (any_map (ErrorJSONCode_json e extra)) (Code (ErrorJSONCode_Status e)).

End Encoder.

(** The initial value of [DefaultErrorHandler]. *)
Definition DefaultErrorHandler_init (err : go_error) : Response :=
  Text (error_Error err) (Code StatusBadRequest).

Section Resolver.

(** The current value of the package variable [DefaultErrorHandler]. *)
Variable DefaultErrorHandler : go_error → Response.

(** [fireAfterMiddleware(err, w, r)]; [w] is the writer of the state. *)
Definition fireAfterMiddleware (ord : list nat) (err : option error) (r : Request)
  : Go World unit :=
  match err with
  | None => ret tt
  | Some e =>
      let res := match e with
                 | error_Response res => res
                 | error_other e' => DefaultErrorHandler e'
                 end in
      for_each (range ord (Response_headers res)) Header_Set >>
      WriteHeader (Response_Code res) >>
      match Response_Copy res with
      | None => ret tt
      | Some copy =>
          let* err := call_Copy copy in
          match err with
          | Some e' => CopyErrorHandler e'
          | None => ret tt
          end >>
          DefaultAfterMiddleware r res
      end
  end.

(** A handler writes to its response writer, uses readers, and returns an
    error or nil. *)
Definition Handler := Request → Go (ResponseWriter * gmap nat io_Reader) (option error).
Definition HttpRouterHandler :=
  Request → list (string * string) → Go (ResponseWriter * gmap nat io_Reader) (option error).

Definition call_handler (h : Go (ResponseWriter * gmap nat io_Reader) (option error))
  : Go World (option error) :=
  zoom (λ s, (rw s, readers s)) (λ p s, mkWorld p.1 p.2 (calls s)) h.

(** [H(h)] *)
Definition H (ord : list nat) (h : Handler) (r : Request) : Go World unit :=
  let* err := call_handler (h r) in
  fireAfterMiddleware ord err r.

(** [HRouter(h)] *)
Definition HRouter (ord : list nat) (h : HttpRouterHandler) (r : Request)
  (p : list (string * string)) : Go World unit :=
  let* err := call_handler (h r p) in
  fireAfterMiddleware ord err r.

End Resolver.

(** ** Derived notions used in the statements *)

(** The calls of the header loop. *)
Definition header_calls (l : list (string * string)) : list event :=
  (λ kv, CallHeaderSet kv.1 kv.2) <$> l.

(** The header map of a writer after the header loop over the map [m],
    visited in the order [ord]. *)
Definition applied_headers (ord : list nat) (m : go_map) (h : gmap string string)
  : gmap string string :=
  foldl set_header h (range ord m).

(** The entries of a map with every key in canonical form. *)
Definition canonical_entries (m : go_map) : list (string * string) :=
  (λ kv, (CanonicalMIMEHeaderKey kv.1, kv.2)) <$> map_to_list (entries m).

(** The keys of [m] stay distinct when put in canonical form. *)
Definition distinct_canonical_keys (m : go_map) : Prop :=
  NoDup (canonical_entries m).*1.

(** The keys of [m] are in canonical form. *)
Definition canonical_keys (m : go_map) : Prop :=
  Forall (λ kv, CanonicalMIMEHeaderKey kv.1 = kv.1) (map_to_list (entries m)).

(** The header set of [m] as [net/http] stores it. *)
Definition canonical_headers (m : go_map) : gmap string string :=
  list_to_map (canonical_entries m).

(** The state after the header loop over [l]. *)
Definition headers_set (l : list (string * string)) (s : World) : World :=
  mkWorld
    (mkResponseWriter (foldl set_header (Header (rw s)) l)
                      (wroteHeader (rw s)) (conn (rw s)))
    (readers s) (calls s ++ header_calls l).

(** The state once the headers of [res] are applied and its status line is
    written. *)
Definition committed (ord : list nat) (res : Response) (s : World) : World :=
  let hdr := applied_headers ord (Response_headers res) (Header (rw s)) in
  mkWorld
    (mkResponseWriter hdr (wroteHeader (rw s) ++ [(Response_Code res, hdr)]) (conn (rw s)))
    (readers s)
    (calls s ++ header_calls (range ord (Response_headers res))
             ++ [CallWriteHeader (Response_Code res)]).

(** The state after the body closure returned [err] in the state [io]. *)
Definition copied (r : Request) (res : Response) (io : IO) (err : option go_error)
  (s1 : World) : World :=
  let w := mkResponseWriter (Header (rw s1)) (wroteHeader (rw s1)) (dst io) in
  mkWorld w (heap io)
    (calls s1 ++ [CallCopy]
       ++ match err with Some e => [CallCopyErrorHandler e] | None => [] end
       ++ [CallDefaultAfterMiddleware w r res]).

(** The state after the body closure panicked in the state [io]. *)
Definition copy_panicked (io : IO) (s1 : World) : World :=
  mkWorld (mkResponseWriter (Header (rw s1)) (wroteHeader (rw s1)) (dst io))
          (heap io) (calls s1 ++ [CallCopy]).

(** The status lines, the header map and the body bytes a writer holds. *)
Definition output (s : World) : list (Z * gmap string string) * gmap string string * string :=
  (wroteHeader (rw s), Header (rw s), written (conn (rw s))).

(** The payload that [extra...] supplies: its first element, unless there
    is none or it is nil. *)
Definition supplied_extra (extra : list any) : option any :=
  match extra with
  | v :: _ => if any_is_nil v then None else Some v
  | [] => None
  end.

Definition content_type_json : gmap string string :=
  {[ "Content-Type" := "application/json" ]}.

(** All the bytes a reader still delivers. *)
Definition joined (chunks : list string) : string := foldr String.append "" chunks.

(** What [Error] puts before the message of a failed copy. *)
Definition reading_prefix : string := "reading all bytes from Reader: ".

(** Follows the specification, "the output of resolving a Result": the
    writer and the readers once the headers of [res] are set on the writer,
    one status line with its code is written, and its body closure, if it
    has one, has run on the connection. *)
Definition resolved (ord : list nat) (res : Response) (w : ResponseWriter)
  (rd : gmap nat io_Reader) : ResponseWriter * gmap nat io_Reader :=
  let hdr := applied_headers ord (Response_headers res) (Header w) in
  let lines := wroteHeader w ++ [(Response_Code res, hdr)] in
  match Response_Copy res with
  | None => (mkResponseWriter hdr lines (conn w), rd)
  | Some copy =>
      let io := (copy (mkIO (conn w) rd)).1 in
      (mkResponseWriter hdr lines (dst io), heap io)
  end.

(** Follows the specification, "a non-empty extra payload": a payload is
    empty when it is nil, the empty string or a nil pointer. *)
Definition payload_is_empty (v : any) : bool :=
  match v with
  | any_nil => true
  | any_string EmptyString => true
  | any_pointer None => true
  | _ => false
  end.

(** Follows the specification: the body [{"code": c}], with an ["extra"]
    field only for a non-empty payload. *)
Definition claimed_json (c : string) (extra : list any) : gmap string any :=
  match extra with
  | v :: _ =>
      if payload_is_empty v then {[ "code" := any_string c ]}
      else {[ "code" := any_string c; "extra" := v ]}
  | [] => {[ "code" := any_string c ]}
  end.

(** * Properties *)

(** ** The monad *)

Lemma bind_ret_l {S A B} (a : A) (k : A → Go S B) (s : S) :
  bind (ret a) k s = k a s.
Proof. reflexivity. Qed.

Lemma bind_modify {S B} (f : S → S) (k : unit → Go S B) (s : S) :
  bind (modify f) k s = k tt (f s).
Proof. reflexivity. Qed.

Lemma bind_assoc {S A B C} (m : Go S A) (k : A → Go S B) (k' : B → Go S C) (s : S) :
  bind (bind m k) k' s = bind m (λ a, bind (k a) k') s.
Proof. unfold bind. destruct (m s) as [s' [a|msg]]; reflexivity. Qed.

(** ** Iteration order *)

Lemma shuffle_Permutation {A} (ord : list nat) (l : list A) : shuffle ord l ≡ₚ l.
Proof.
  revert l. induction ord as [|n ord IH]; intros l; simpl; [done|].
  destruct (l !! (n `mod` length l)%nat) as [x|] eqn:Hx; [|done].
  rewrite IH. symmetry. by apply delete_Permutation.
Qed.

Lemma range_Permutation (ord : list nat) (m : go_map) :
  range ord m ≡ₚ map_to_list (entries m).
Proof. apply shuffle_Permutation. Qed.

Lemma range_NoDup_keys (ord : list nat) (m : go_map) : NoDup (range ord m).*1.
Proof.
  rewrite (range_Permutation ord m). apply NoDup_fst_map_to_list.
Qed.

(** Assigning the entries of a list without duplicate keys, one by one,
    is a union that lets the list win. *)
Lemma foldl_insert_union (l : list (string * string)) (h : gmap string string) :
  NoDup l.*1 →
  foldl (λ acc kv, <[kv.1 := kv.2]> acc) h l = list_to_map l ∪ h.
Proof.
  revert h. induction l as [|[k v] l IH]; intros h Hnd.
  - simpl. by rewrite (left_id_L ∅ (∪)).
  - rewrite fmap_cons in Hnd. apply NoDup_cons in Hnd as [Hk Hnd].
    cbn [foldl list_to_map foldr fst snd uncurry]. rewrite IH by done.
    rewrite <- insert_union_l. symmetry. apply insert_union_r.
    by apply not_elem_of_list_to_map_1.
Qed.

(** A [range] loop of assignments does not depend on the order chosen. *)
Lemma foldl_insert_range (ord : list nat) (m : go_map) (h : gmap string string) :
  foldl (λ acc kv, <[kv.1 := kv.2]> acc) h (range ord m) = entries m ∪ h.
Proof.
  rewrite foldl_insert_union by apply range_NoDup_keys.
  f_equal. rewrite <- (list_to_map_to_list (entries m)) at 1.
  apply list_to_map_proper; [apply range_NoDup_keys | apply range_Permutation].
Qed.

Lemma shuffle_nil {A} (ord : list nat) : shuffle ord (@nil A) = [].
Proof. by destruct ord. Qed.

Lemma shuffle_singleton {A} (ord : list nat) (x : A) : shuffle ord [x] = [x].
Proof.
  destruct ord as [|n ord]; [done|]. cbn [shuffle length].
  rewrite Nat.mod_1_r. cbn. by rewrite shuffle_nil.
Qed.

Lemma range_empty (ord : list nat) : range ord (Some ∅) = [].
Proof. unfold range, entries. cbn [from_option id]. by rewrite map_to_list_empty, shuffle_nil. Qed.

Lemma range_singleton (ord : list nat) (k v : string) :
  range ord (Some {[ k := v ]}) = [(k, v)].
Proof.
  unfold range, entries. cbn [from_option id].
  by rewrite map_to_list_singleton, shuffle_singleton.
Qed.

Lemma length_range (ord : list nat) (m : go_map) :
  length (range ord m) = size (entries m).
Proof. by rewrite (range_Permutation ord m), length_map_to_list. Qed.

Lemma canonical_Content_Type :
  CanonicalMIMEHeaderKey "Content-Type" = "Content-Type".
Proof. reflexivity. Qed.

Lemma applied_headers_empty (ord : list nat) (h : gmap string string) :
  applied_headers ord (Some ∅) h = h.
Proof. unfold applied_headers. by rewrite range_empty. Qed.

Lemma applied_headers_singleton (ord : list nat) (k v : string) (h : gmap string string) :
  applied_headers ord (Some {[ k := v ]}) h = <[CanonicalMIMEHeaderKey k := v]> h.
Proof. unfold applied_headers. by rewrite range_singleton. Qed.

(** ** Counting calls *)

Lemma count_app (p : event → bool) (t1 t2 : list event) :
  count p (t1 ++ t2) = (count p t1 + count p t2)%nat.
Proof. unfold count. by rewrite filter_app, length_app. Qed.

Lemma count_cons (p : event → bool) (e : event) (t : list event) :
  count p (e :: t) = ((if p e then 1 else 0) + count p t)%nat.
Proof.
  unfold count. rewrite filter_cons. destruct (p e); by case_decide.
Qed.

Lemma count_nil (p : event → bool) : count p [] = 0%nat.
Proof. reflexivity. Qed.

Lemma count_header_calls (p : event → bool) (l : list (string * string)) :
  (∀ k v, p (CallHeaderSet k v) = false) → count p (header_calls l) = 0%nat.
Proof.
  intros Hp. induction l as [|[k v] l IH]; [done|].
  unfold header_calls in *. rewrite fmap_cons, count_cons. simpl. by rewrite Hp, IH.
Qed.

Lemma count_header_calls_self (l : list (string * string)) :
  count is_CallHeaderSet (header_calls l) = length l.
Proof.
  induction l as [|[k v] l IH]; [done|].
  unfold header_calls in *. rewrite fmap_cons, count_cons. simpl. by rewrite IH.
Qed.

(** ** What [fireAfterMiddleware] does, step by step *)

Lemma for_each_Header_Set (l : list (string * string)) (s : World) :
  for_each l Header_Set s = (headers_set l s, Ok tt).
Proof.
  revert s. induction l as [|[k v] l IH]; intros s.
  - destruct s as [[hd wh c] rd t]. unfold headers_set, header_calls. simpl.
    by rewrite app_nil_r.
  - cbn [for_each]. unfold Header_Set at 1, emit.
    rewrite !bind_assoc, !bind_modify. cbn [rw readers calls Header wroteHeader conn].
    rewrite IH. unfold headers_set, header_calls.
    cbn [rw readers calls Header wroteHeader conn foldl].
    by rewrite fmap_cons, <- app_assoc.
Qed.

Section ResolverFacts.

Variable D : go_error → Response.

Lemma fire_commit (ord : list nat) (res : Response) (r : Request) (s : World)
  (k : Go World unit) :
  (for_each (range ord (Response_headers res)) Header_Set >>
   WriteHeader (Response_Code res) >> k) s = k (committed ord res s).
Proof.
  unfold bind at 1. rewrite for_each_Header_Set.
  unfold WriteHeader, emit. rewrite !bind_assoc, !bind_modify.
  unfold headers_set, committed, applied_headers.
  cbn [rw readers calls Header wroteHeader conn].
  by rewrite <- app_assoc.
Qed.

Lemma fire_Response_no_Copy (ord : list nat) (res : Response) (r : Request) (s : World) :
  Response_Copy res = None →
  fireAfterMiddleware D ord (Some (error_Response res)) r s = (committed ord res s, Ok tt).
Proof.
  intros Hc. unfold fireAfterMiddleware. rewrite Hc. by rewrite (fire_commit ord res r).
Qed.

Lemma fire_Response_Copy (ord : list nat) (res : Response) (r : Request) (s : World)
  (copy : Go IO (option go_error)) :
  Response_Copy res = Some copy →
  fireAfterMiddleware D ord (Some (error_Response res)) r s =
  let s1 := committed ord res s in
  match copy (mkIO (conn (rw s1)) (readers s1)) with
  | (io, Ok err) => (copied r res io err s1, Ok tt)
  | (io, Panic msg) => (copy_panicked io s1, Panic msg)
  end.
Proof.
  intros Hc. unfold fireAfterMiddleware. rewrite Hc. rewrite (fire_commit ord res r).
  cbv zeta. set (s1 := committed ord res s).
  unfold call_Copy, emit. rewrite !bind_assoc, bind_modify.
  unfold bind at 1, zoom. cbn [rw readers calls Header wroteHeader conn].
  destruct (copy _) as [io [[e|]|msg]]; try reflexivity.
  - unfold CopyErrorHandler, DefaultAfterMiddleware, emit, copied.
    rewrite !bind_modify. unfold modify. cbn [rw readers calls Header wroteHeader conn].
    by rewrite <- !app_assoc.
  - unfold DefaultAfterMiddleware, emit, copied.
    rewrite bind_ret_l. unfold modify. cbn [rw readers calls Header wroteHeader conn].
    by rewrite <- !app_assoc.
Qed.

Lemma fire_other (ord : list nat) (e : go_error) (r : Request) (s : World) :
  fireAfterMiddleware D ord (Some (error_other e)) r s =
  fireAfterMiddleware D ord (Some (error_Response (D e))) r s.
Proof. reflexivity. Qed.

End ResolverFacts.

Ltac count_calls :=
  rewrite ?count_app, ?count_cons, ?count_nil;
  rewrite ?count_header_calls by done;
  cbn [is_CallHeaderSet is_CallWriteHeader is_CallCopy is_CallCopyErrorHandler
       is_CallDefaultAfterMiddleware];
  try lia.

(** What [H] does once the handler has returned. *)
Lemma H_returned (D : go_error → Response) (ord : list nat) (h : Handler) (r : Request)
  (s : World) (w1 : ResponseWriter) (rd1 : gmap nat io_Reader) (err : option error) :
  h r (rw s, readers s) = ((w1, rd1), Ok err) →
  H D ord h r s = fireAfterMiddleware D ord err r (mkWorld w1 rd1 (calls s)).
Proof.
  intros Hh. unfold H, call_handler, bind, zoom. by rewrite Hh.
Qed.

(** [HRouter] is [H] with the route parameters handed to the handler. *)
Lemma HRouter_H (D : go_error → Response) (ord : list nat) (h : HttpRouterHandler)
  (r : Request) (p : list (string * string)) :
  HRouter D ord h r p = H D ord (λ r', h r' p) r.
Proof. reflexivity. Qed.

(** With a body closure that returns, with or without an error, the
    after-hook is the last call, is the only one, and sees the writer as
    the request leaves it. *)
Lemma after_hook_once_with_body (D : go_error → Response) (ord : list nat) (res : Response)
  (r : Request) (s : World) (copy : Go IO (option go_error)) :
  Response_Copy res = Some copy →
  is_Ok (copy (mkIO (conn (rw s)) (readers s))).2 →
  let s' := (fireAfterMiddleware D ord (Some (error_Response res)) r s).1 in
  count is_CallDefaultAfterMiddleware (calls s')
    = S (count is_CallDefaultAfterMiddleware (calls s))
  ∧ last (calls s') = Some (CallDefaultAfterMiddleware (rw s') r res).
Proof.
  intros Hc Hok. cbv zeta. rewrite (fire_Response_Copy D ord res r s copy Hc).
  cbv zeta. cbn [committed rw readers conn] in *.
  destruct (copy _) as [io [err|msg]]; [|done]. cbn [fst copied calls rw]. split.
  - unfold committed. cbn [calls]. destruct err; count_calls.
  - by rewrite !app_assoc, last_snoc.
Qed.

(** C1, on the input that breaks it: a [Response] without a body closure
    ([Code(code)], with or without headers).  [fireAfterMiddleware] sets
    the headers and writes the status line, then returns at
    [if res.Copy == nil]: the trace gains the status line and no call of
    [DefaultAfterMiddleware]. *)
Theorem after_hook_skipped_without_body (D : go_error → Response) (ord : list nat)
  (code : Z) (hdrs : go_map) (r : Request) (s : World) :
  let res := mkResponse code hdrs None in
  let out := fireAfterMiddleware D ord (Some (error_Response res)) r s in
  out.2 = Ok tt
  ∧ count is_CallWriteHeader (calls out.1) = S (count is_CallWriteHeader (calls s))
  ∧ count is_CallDefaultAfterMiddleware (calls out.1)
      = count is_CallDefaultAfterMiddleware (calls s).
Proof.
  cbv zeta. rewrite fire_Response_no_Copy by done.
  cbn [fst snd committed calls Response_Code Response_headers].
  repeat split; count_calls.
Qed.

(** The calls made for [Code(404)], and for a text body the client does
    not take in full. *)
Example calls_Code_404 :
  calls (fireAfterMiddleware DefaultErrorHandler_init []
           (Some (error_Response (Code 404))) (mkRequest "GET" "/")
           (mkWorld (mkResponseWriter ∅ [] bytes_Buffer) ∅ [])).1
  = [CallWriteHeader 404].
Proof. reflexivity. Qed.

Example calls_failed_copy :
  let res := Text "not found" (Code 404) in
  let w' := mkResponseWriter ∅ [(404, ∅)] (mkWriter "not" (Some 0%nat)) in
  calls (fireAfterMiddleware DefaultErrorHandler_init []
           (Some (error_Response res)) (mkRequest "GET" "/")
           (mkWorld (mkResponseWriter ∅ [] (mkWriter "" (Some 3%nat))) ∅ [])).1
  = [CallWriteHeader 404; CallCopy; CallCopyErrorHandler ErrShortWrite;
     CallDefaultAfterMiddleware w' (mkRequest "GET" "/") res].
Proof. reflexivity. Qed.

(** C2: one run of [fireAfterMiddleware], whatever the handler returned
    and whether the body closure returns or panics, adds at most one status
    line to the writer, calls [WriteHeader] at most once and calls the body
    closure at most once. *)
Theorem status_and_body_at_most_once (D : go_error → Response) (ord : list nat)
  (err : option error) (r : Request) (s : World) :
  let s' := (fireAfterMiddleware D ord err r s).1 in
  (count is_CallWriteHeader (calls s') ≤ count is_CallWriteHeader (calls s) + 1)%nat
  ∧ (count is_CallCopy (calls s') ≤ count is_CallCopy (calls s) + 1)%nat
  ∧ (length (wroteHeader (rw s')) ≤ length (wroteHeader (rw s)) + 1)%nat.
Proof.
  cbv zeta. destruct err as [e|]; [|cbn; lia].
  assert (∀ res,
    let s' := (fireAfterMiddleware D ord (Some (error_Response res)) r s).1 in
    (count is_CallWriteHeader (calls s') ≤ count is_CallWriteHeader (calls s) + 1)%nat
    ∧ (count is_CallCopy (calls s') ≤ count is_CallCopy (calls s) + 1)%nat
    ∧ (length (wroteHeader (rw s')) ≤ length (wroteHeader (rw s)) + 1)%nat) as Hres.
  { intros res. cbv zeta. destruct (Response_Copy res) as [copy|] eqn:Hc.
    - rewrite (fire_Response_Copy D ord res r s copy Hc). cbv zeta.
      destruct (copy _) as [io [e'|msg]];
        cbn [fst copied copy_panicked committed calls rw wroteHeader];
        rewrite ?length_app; cbn [length];
        repeat split; try destruct e'; count_calls.
    - rewrite fire_Response_no_Copy by done.
      cbn [fst committed calls rw wroteHeader]. rewrite ?length_app; cbn [length].
      repeat split; count_calls. }
  destruct e as [res|e']; [apply Hres|]. rewrite fire_other. apply Hres.
Qed.

(** ** Headers on the writer *)

Lemma foldl_set_header (l : list (string * string)) (h : gmap string string) :
  foldl set_header h l
  = foldl (λ acc kv, <[kv.1 := kv.2]> acc) h
      ((λ kv, (CanonicalMIMEHeaderKey kv.1, kv.2)) <$> l).
Proof.
  revert h. induction l as [|kv l IH]; intros h; [done|].
  rewrite fmap_cons. cbn [foldl]. by rewrite IH.
Qed.

(** When the keys stay distinct in canonical form, the header loop lays
    the canonical header set over the headers of the writer, whatever the
    order of the loop. *)
Lemma applied_headers_distinct (ord : list nat) (m : go_map) (h : gmap string string) :
  distinct_canonical_keys m →
  applied_headers ord m h = canonical_headers m ∪ h.
Proof.
  intros Hnd. unfold applied_headers, canonical_headers, canonical_entries.
  rewrite foldl_set_header.
  assert ((λ kv : string * string, (CanonicalMIMEHeaderKey kv.1, kv.2)) <$> range ord m
          ≡ₚ (λ kv, (CanonicalMIMEHeaderKey kv.1, kv.2)) <$> map_to_list (entries m))
    as Hperm by (by rewrite (range_Permutation ord m)).
  assert (NoDup ((λ kv : string * string,
                    (CanonicalMIMEHeaderKey kv.1, kv.2)) <$> range ord m).*1) as Hnd'.
  { by rewrite Hperm. }
  rewrite foldl_insert_union by done. f_equal. by apply list_to_map_proper.
Qed.

Lemma canonical_entries_canonical (m : go_map) :
  canonical_keys m → canonical_entries m = map_to_list (entries m).
Proof.
  intros Hc. unfold canonical_entries. rewrite <- (list_fmap_id (map_to_list (entries m))) at 2.
  apply Forall_fmap_ext. eapply Forall_impl; [exact Hc|].
  intros [k v] Hk. cbn in *. by rewrite Hk.
Qed.

Lemma canonical_keys_distinct (m : go_map) :
  canonical_keys m → distinct_canonical_keys m.
Proof.
  intros Hc. unfold distinct_canonical_keys.
  rewrite canonical_entries_canonical by done. apply NoDup_fst_map_to_list.
Qed.

Lemma canonical_headers_canonical (m : go_map) :
  canonical_keys m → canonical_headers m = entries m.
Proof.
  intros Hc. unfold canonical_headers. rewrite canonical_entries_canonical by done.
  apply list_to_map_to_list.
Qed.

Lemma canonical_headers_lookup (m : go_map) (k v : string) :
  distinct_canonical_keys m →
  entries m !! k = Some v →
  canonical_headers m !! CanonicalMIMEHeaderKey k = Some v.
Proof.
  intros Hnd Hk. apply elem_of_list_to_map_1; [done|].
  unfold canonical_entries.
  apply (list_elem_of_fmap_2 (λ kv : string * string, (CanonicalMIMEHeaderKey kv.1, kv.2))
           _ (k, v)).
  by apply elem_of_map_to_list.
Qed.

(** C3, as the code has it: when the handler returns the [Response] [R],
    [H] first sets the headers of [R] on the writer and then writes one
    status line with the code of [R], which carries the header map as it
    is then.  Each header is stored under the canonical form of its key.
    When the keys of [R] stay distinct in canonical form, the header map
    of the response is the canonical header set of [R] laid over the
    headers the writer had, [R] winning on a shared key; every header of
    [R] is found under its canonical key; and when the keys of [R] are
    canonical and the writer had no header, it is the header set of
    [R]. *)
Theorem resolver_writes_status_and_headers (D : go_error → Response) (ord : list nat)
  (h : Handler) (R : Response) (r : Request) (s : World)
  (w1 : ResponseWriter) (rd1 : gmap nat io_Reader) :
  h r (rw s, readers s) = ((w1, rd1), Ok (Some (error_Response R))) →
  let s' := (H D ord h r s).1 in
  let hdr := canonical_headers (Response_headers R) ∪ Header w1 in
  wroteHeader (rw s') = wroteHeader w1 ++ [(Response_Code R, Header (rw s'))]
  ∧ Header (rw s') = applied_headers ord (Response_headers R) (Header w1)
  ∧ (distinct_canonical_keys (Response_headers R) →
     Header (rw s') = hdr
     ∧ (∀ k, hdr !! k = match canonical_headers (Response_headers R) !! k with
                        | Some v => Some v
                        | None => Header w1 !! k
                        end)
     ∧ (∀ k v, entries (Response_headers R) !! k = Some v →
               hdr !! CanonicalMIMEHeaderKey k = Some v))
  ∧ (canonical_keys (Response_headers R) → Header w1 = ∅ →
     Header (rw s') = entries (Response_headers R))
  ∧ ∃ t, calls s' = calls s ++ header_calls (range ord (Response_headers R))
                            ++ CallWriteHeader (Response_Code R) :: t
         ∧ count is_CallHeaderSet t = 0%nat
         ∧ count is_CallWriteHeader t = 0%nat.
Proof.
  intros Hh. cbv zeta. rewrite (H_returned D ord h r s w1 rd1 _ Hh).
  assert (∀ k, (canonical_headers (Response_headers R) ∪ Header w1) !! k
               = match canonical_headers (Response_headers R) !! k with
                 | Some v => Some v
                 | None => Header w1 !! k
                 end) as Hlook.
  { intros k. rewrite lookup_union.
    destruct (canonical_headers (Response_headers R) !! k), (Header w1 !! k); done. }
  assert (∀ s1 : World,
    Header (rw s1) = applied_headers ord (Response_headers R) (Header w1) →
    (distinct_canonical_keys (Response_headers R) →
     Header (rw s1) = canonical_headers (Response_headers R) ∪ Header w1
     ∧ (∀ k, (canonical_headers (Response_headers R) ∪ Header w1) !! k
             = match canonical_headers (Response_headers R) !! k with
               | Some v => Some v
               | None => Header w1 !! k
               end)
     ∧ (∀ k v, entries (Response_headers R) !! k = Some v →
               (canonical_headers (Response_headers R) ∪ Header w1)
                 !! CanonicalMIMEHeaderKey k = Some v))
    ∧ (canonical_keys (Response_headers R) → Header w1 = ∅ →
       Header (rw s1) = entries (Response_headers R))) as Hhdr.
  { intros s1 Hs1. split.
    - intros Hnd. split_and!; [by rewrite Hs1, applied_headers_distinct|done|].
      intros k v Hk. rewrite Hlook.
      by rewrite (canonical_headers_lookup _ k v Hnd Hk).
    - intros Hc Hempty. rewrite Hs1, applied_headers_distinct
        by by apply canonical_keys_distinct.
      by rewrite Hempty, (right_id_L ∅ (∪)), canonical_headers_canonical. }
  destruct (Response_Copy R) as [copy|] eqn:Hc.
  - rewrite (fire_Response_Copy D ord R r _ copy Hc). cbv zeta.
    destruct (copy _) as [io [e'|msg]];
      cbn [fst copied copy_panicked committed calls rw wroteHeader Header];
      (split; [done|]); (split; [done|]);
      (split; [by apply (Hhdr (mkWorld (mkResponseWriter _ [] (dst io)) ∅ []))|]);
      (split; [by apply (Hhdr (mkWorld (mkResponseWriter _ [] (dst io)) ∅ []))|]).
    + rewrite <- !app_assoc. eexists. split; [reflexivity|].
      split; destruct e'; count_calls.
    + rewrite <- !app_assoc. by exists [CallCopy].
  - rewrite fire_Response_no_Copy by done.
    cbn [fst committed calls rw wroteHeader Header].
    (split; [done|]); (split; [done|]);
    (split; [by apply (Hhdr (mkWorld (mkResponseWriter _ [] (conn w1)) ∅ []))|]);
    (split; [by apply (Hhdr (mkWorld (mkResponseWriter _ [] (conn w1)) ∅ []))|]).
    by exists [].
Qed.

Lemma resolver_writes_status_and_headers_witness :
  let R := Headers [] (Some {[ "x-trace" := "on" ]}) (Code 404) in
  let s := mkWorld (mkResponseWriter {[ "Server" := "go" ]} [] bytes_Buffer) ∅ [] in
  let s' := (H DefaultErrorHandler_init [2%nat] (λ _, ret (Some (error_Response R)))
               (mkRequest "GET" "/") s).1 in
  wroteHeader (rw s') = [(404, {[ "X-Trace" := "on"; "Server" := "go" ]})].
Proof.
  intros R s s'.
  destruct (resolver_writes_status_and_headers DefaultErrorHandler_init [2%nat]
              (λ _, ret (Some (error_Response R))) R (mkRequest "GET" "/") s
              (rw s) (readers s) eq_refl) as (Hw & _).
  exact Hw.
Defined.

(** The claim as the specification states it asks that the header set of
    the response equal the one of [R].  A key that is not canonical is
    stored under another name. *)
Lemma resolver_headers_not_those_of_R :
  let R := Headers [] (Some {[ "x-trace" := "on" ]}) (Code 404) in
  let s := mkWorld (mkResponseWriter ∅ [] bytes_Buffer) ∅ [] in
  let s' := (H DefaultErrorHandler_init [] (λ _, ret (Some (error_Response R)))
               (mkRequest "GET" "/") s).1 in
  Header (rw s') = {[ "X-Trace" := "on" ]}
  ∧ Header (rw s') ≠ entries (Response_headers R).
Proof.
  intros R s s'. split; [reflexivity|].
  intros Heq. apply (f_equal (λ m : gmap string string, m !! "x-trace")) in Heq.
  vm_compute in Heq. discriminate Heq.
Qed.

(** Two keys with one canonical form: the value kept depends on the order
    of the loop. *)
Example colliding_keys_depend_on_order :
  let R := Headers [] (Some {[ "x-id" := "1"; "X-Id" := "2" ]}) (Code 200) in
  let s := mkWorld (mkResponseWriter ∅ [] bytes_Buffer) ∅ [] in
  Header (rw (fireAfterMiddleware DefaultErrorHandler_init [0%nat]
                (Some (error_Response R)) (mkRequest "GET" "/") s).1)
  ≠ Header (rw (fireAfterMiddleware DefaultErrorHandler_init [1%nat]
                  (Some (error_Response R)) (mkRequest "GET" "/") s).1).
Proof.
  intros R s Heq. apply (f_equal (λ m : gmap string string, m !! "X-Id")) in Heq.
  vm_compute in Heq. discriminate Heq.
Qed.

(** What [fireAfterMiddleware] leaves of a [Response] is what resolving it
    means. *)
Lemma fire_resolved (D : go_error → Response) (ord : list nat) (res : Response)
  (r : Request) (s : World) :
  let out := fireAfterMiddleware D ord (Some (error_Response res)) r s in
  (rw out.1, readers out.1) = resolved ord res (rw s) (readers s).
Proof.
  cbv zeta. unfold resolved. destruct (Response_Copy res) as [copy|] eqn:Hc.
  - rewrite (fire_Response_Copy D ord res r s copy Hc). cbv zeta.
    unfold committed. cbn [rw readers conn].
    by destruct (copy _) as [io [e'|msg]].
  - by rewrite fire_Response_no_Copy.
Qed.

(** C4: for an error [E] that is not a [Response], [fireAfterMiddleware]
    ends in the state it reaches from the [Response] that the configured
    [DefaultErrorHandler] returns for [E], and the writer then holds the
    output of that [Response]: its headers, one status line with its code,
    and what its body closure wrote.  With the initial
    [DefaultErrorHandler] this is no header, status 400 and the message of
    [E] written to the connection. *)
Theorem classified_error_output (D : go_error → Response) (ord : list nat)
  (E : go_error) (r : Request) (s : World) :
  let direct := fireAfterMiddleware D ord (Some (error_Response (D E))) r s in
  let out := fireAfterMiddleware D ord (Some (error_other E)) r s in
  let dflt := fireAfterMiddleware DefaultErrorHandler_init ord (Some (error_other E)) r s in
  out = direct ∧ output out.1 = output direct.1
  ∧ (rw out.1, readers out.1) = resolved ord (D E) (rw s) (readers s)
  ∧ rw dflt.1
    = mkResponseWriter (Header (rw s))
        (wroteHeader (rw s) ++ [(StatusBadRequest, Header (rw s))])
        (Writer_Write (error_Error E) (conn (rw s))).1
  ∧ readers dflt.1 = readers s.
Proof.
  cbv zeta. rewrite !fire_other. split_and!; [done|done|apply fire_resolved|..].
  - pose proof (fire_resolved DefaultErrorHandler_init ord (DefaultErrorHandler_init E) r s)
      as Hr. cbv zeta in Hr. apply (f_equal fst) in Hr. cbn [fst] in Hr. rewrite Hr.
    unfold resolved, DefaultErrorHandler_init, Text, Code, copyText, io_Write.
    cbn [Response_headers Response_Code Response_Copy dst heap fst].
    rewrite applied_headers_empty.
    by destruct (Writer_Write (error_Error E) (conn (rw s))).
  - pose proof (fire_resolved DefaultErrorHandler_init ord (DefaultErrorHandler_init E) r s)
      as Hr. cbv zeta in Hr. apply (f_equal snd) in Hr. cbn [snd] in Hr. rewrite Hr.
    unfold resolved, DefaultErrorHandler_init, Text, Code, copyText, io_Write.
    cbn [Response_headers Response_Code Response_Copy dst heap fst snd].
    by destruct (Writer_Write (error_Error E) (conn (rw s))).
Qed.

(** With the initial [DefaultErrorHandler], an error that is not a
    [Response] is answered with status 400 and its message as the body. *)
Lemma default_classifier_output (ord : list nat) (E : go_error) (r : Request)
  (hd : gmap string string) (rd : gmap nat io_Reader) :
  let s := mkWorld (mkResponseWriter hd [] bytes_Buffer) rd [] in
  output (fireAfterMiddleware DefaultErrorHandler_init ord (Some (error_other E)) r s).1
  = ([(StatusBadRequest, hd)], hd, error_Error E).
Proof.
  cbv zeta. rewrite fire_other.
  rewrite (fire_Response_Copy _ ord _ r _ (copyText (error_Error E))) by done.
  unfold output, committed. cbn [Response_headers DefaultErrorHandler_init Text Code].
  rewrite applied_headers_empty. reflexivity.
Qed.

(** C8: when the handler returns nil, [H] leaves the writer and the
    readers as the handler left them, and makes no call: no header is set,
    no status line and no body is written, no hook is called.  *)
Theorem nil_return_no_writes (D : go_error → Response) (ord : list nat) (h : Handler)
  (r : Request) (s : World) (w1 : ResponseWriter) (rd1 : gmap nat io_Reader) :
  h r (rw s, readers s) = ((w1, rd1), Ok None) →
  H D ord h r s = (mkWorld w1 rd1 (calls s), Ok tt)
  ∧ ∀ s0, fireAfterMiddleware D ord None r s0 = (s0, Ok tt).
Proof.
  intros Hh. split; [|done]. by rewrite (H_returned D ord h r s w1 rd1 None Hh).
Qed.

Lemma nil_return_no_writes_witness :
  let s := mkWorld (mkResponseWriter {[ "Server" := "go" ]} [] bytes_Buffer) ∅ [] in
  H DefaultErrorHandler_init [] (λ _, ret None) (mkRequest "GET" "/") s = (s, Ok tt).
Proof.
  intros s.
  exact (proj1 (nil_return_no_writes DefaultErrorHandler_init [] (λ _, ret None)
                  (mkRequest "GET" "/") s (rw s) (readers s) eq_refl)).
Defined.

(** ** Structured error codes *)

(** C5, as the code has it: [NewCode(c, st).JSON(extra...)] is a
    [Response] with status [st], the JSON content type, and a body closure
    that encodes a map and writes the text to the writer (or returns the
    error of the encoder and writes nothing).  The map holds ["code"] bound
    to [c] and, exactly when the first element of [extra] is there and is
    not the nil interface, ["extra"] bound to it; otherwise the map has no
    ["extra"] key at all. *)
Theorem ErrorJSONCode_JSON_result (enc : any → go_error + string) (c : string) (st : Z)
  (extra : list any) :
  let json := ErrorJSONCode_json (NewCode c st) extra in
  ErrorJSONCode_JSON enc (NewCode c st) extra
    = Ok (mkResponse st (Some content_type_json) (Some (copyJSON enc (any_map json))))
  ∧ (∀ io, copyJSON enc (any_map json) io
           = match enc (any_map json) with
             | inl e => (io, Ok (Some e))
             | inr text =>
                 (mkIO (Writer_Write text (dst io)).1 (heap io),
                  Ok (Writer_Write text (dst io)).2)
             end)
  ∧ json = match supplied_extra extra with
           | Some v => {[ "code" := any_string c; "extra" := v ]}
           | None => {[ "code" := any_string c ]}
           end
  ∧ json !! "code" = Some (any_string c)
  ∧ json !! "extra" = supplied_extra extra.
Proof.
  cbv zeta. split; [reflexivity|]. split.
  { intros io. unfold copyJSON, io_Write.
    destruct (enc _) as [e|text]; [done|].
    by destruct (Writer_Write text (dst io)). }
  assert (ErrorJSONCode_json (NewCode c st) extra
          = match supplied_extra extra with
            | Some v => {[ "code" := any_string c; "extra" := v ]}
            | None => {[ "code" := any_string c ]}
            end) as Hjson.
  { unfold ErrorJSONCode_json, supplied_extra. cbn [ErrorJSONCode_Code NewCode].
    destruct extra as [|v extra]; [done|]. destruct (any_is_nil v); [done|].
    apply insert_insert_ne. done. }
  split; [exact Hjson|]. rewrite Hjson.
  destruct (supplied_extra extra) as [v|].
  - split; [apply lookup_insert_eq|].
    rewrite lookup_insert_ne by done. apply lookup_insert_eq.
  - split; [apply lookup_singleton_eq|]. by apply lookup_singleton_ne.
Qed.

(** The claim as the specification states it asks for no ["extra"] key
    unless the payload is non-empty.  An empty string is a payload the code
    adds. *)
Lemma empty_string_payload_is_added :
  ErrorJSONCode_json (NewCode "BAD" 400) [any_string ""] !! "extra" = Some (any_string "")
  ∧ claimed_json "BAD" [any_string ""] !! "extra" = None
  ∧ ErrorJSONCode_json (NewCode "BAD" 400) [any_string ""]
    ≠ claimed_json "BAD" [any_string ""].
Proof.
  split_and!; [reflexivity|reflexivity|].
  intros Heq. apply (f_equal (λ m : gmap string any, m !! "extra")) in Heq.
  vm_compute in Heq. discriminate Heq.
Qed.

(** A nil pointer is not the nil interface: it is added as well, and the
    encoder is handed a map with an ["extra"] key bound to a nil pointer. *)
Example nil_pointer_payload_is_added :
  ErrorJSONCode_json (NewCode "BAD" 400) [any_pointer None] !! "extra"
  = Some (any_pointer None).
Proof. reflexivity. Qed.

(** The examples of the specification. *)
Example NewCode_NOT_FOUND (enc : any → go_error + string) :
  ErrorJSONCode_JSON enc (NewCode "NOT_FOUND" 404) []
  = Ok (mkResponse 404 (Some content_type_json)
          (Some (copyJSON enc (any_map {[ "code" := any_string "NOT_FOUND" ]})))).
Proof. reflexivity. Qed.

Example NewCode_BAD_details (enc : any → go_error + string) :
  ErrorJSONCode_JSON enc (NewCode "BAD" 400) [any_string "details"]
  = Ok (mkResponse 400 (Some content_type_json)
          (Some (copyJSON enc (any_map (<["extra" := any_string "details"]>
                                          {[ "code" := any_string "BAD" ]}))))).
Proof. reflexivity. Qed.

(** ** Headers *)

Lemma Headers_entries (ord : list nat) (m : go_map) (r : Response) :
  entries (Response_headers (Headers ord m r)) = entries m ∪ entries (Response_headers r).
Proof.
  unfold Headers. destruct (Response_headers r) as [h|]; cbn [Response_headers entries default].
  - apply foldl_insert_range.
  - by rewrite (right_id_L ∅ (∪)).
Qed.

(** C6: [Headers(m)] leaves the code and the body closure alone and turns
    the headers into the union of [m] and the headers the [Response] had,
    with [m] winning on a shared key, in whatever order the loop runs.  So
    no header set before is lost, a later call overrides an earlier one,
    and [Headers({"A":"1"})] then [Headers({"A":"2","B":"3"})] ends with
    [{"A":"2","B":"3"}]. *)
Theorem Headers_merge (ord : list nat) (m : go_map) (r : Response) :
  let r' := Headers ord m r in
  Response_Code r' = Response_Code r
  ∧ Response_Copy r' = Response_Copy r
  ∧ entries (Response_headers r') = entries m ∪ entries (Response_headers r)
  ∧ (∀ k, entries (Response_headers r') !! k
          = match entries m !! k with
            | Some v => Some v
            | None => entries (Response_headers r) !! k
            end)
  ∧ (∀ ord2 m2, entries (Response_headers (Headers ord2 m2 r'))
                = entries m2 ∪ (entries m ∪ entries (Response_headers r)))
  ∧ (∀ ord1 ord2 c,
       Response_headers (Headers ord2 (Some {[ "A" := "2"; "B" := "3" ]})
                           (Headers ord1 (Some {[ "A" := "1" ]}) (Code c)))
       = Some {[ "A" := "2"; "B" := "3" ]}).
Proof.
  cbv zeta. split_and!.
  - unfold Headers. by destruct (Response_headers r).
  - unfold Headers. by destruct (Response_headers r).
  - apply Headers_entries.
  - intros k. rewrite Headers_entries, lookup_union.
    destruct (entries m !! k), (entries (Response_headers r) !! k); done.
  - intros ord2 m2. by rewrite !Headers_entries.
  - intros ord1 ord2 c. unfold Headers, Code. cbn [Response_headers].
    rewrite !foldl_insert_range. reflexivity.
Qed.

(** ** Body closures *)

Lemma io_Copy_returns (reader : nat) (rd : io_Reader) (io : IO) :
  heap io !! reader = Some rd →
  ∃ io1 err, io_Copy reader io = (io1, Ok err)
             ∧ closed <$> (heap io1 !! reader) = Some (closed rd)
             ∧ fault <$> (heap io1 !! reader) = Some (fault rd).
Proof.
  intros Hrd. unfold io_Copy. rewrite Hrd.
  destruct (copy_chunks (pending rd) (dst io)) as [[w' rest] e].
  eexists _, _. split; [reflexivity|]. cbn [heap].
  by rewrite lookup_insert_eq.
Qed.

(** C7: the closure installed by [ReadCloser], run on a reader of the
    heap, returns what [io.Copy] returns, error or not, leaves the writer
    as [io.Copy] leaves it, and has closed the reader once; [io.Copy] alone,
    the closure of [Reader], does not close it. *)
Theorem ReadCloser_closes_reader (reader : nat) (rd : io_Reader) (io : IO) (r : Response) :
  heap io !! reader = Some rd →
  let plain := io_Copy reader io in
  let out := copyReadCloser reader io in
  Response_Copy (ReadCloser reader r) = Some (copyReadCloser reader)
  ∧ (∃ err, plain.2 = Ok err ∧ out.2 = Ok err)
  ∧ dst out.1 = dst plain.1
  ∧ closed <$> (heap out.1 !! reader) = Some (S (closed rd))
  ∧ closed <$> (heap plain.1 !! reader) = Some (closed rd).
Proof.
  intros Hrd. cbv zeta. split; [reflexivity|].
  unfold copyReadCloser, defer_.
  destruct (io_Copy_returns reader rd io Hrd) as (io1 & err & Hcopy & Hclosed & _).
  rewrite Hcopy. cbn [fst snd]. unfold Reader_Close.
  destruct (heap io1 !! reader) as [rd1|] eqn:Hrd1; [|done].
  cbn [fst snd heap dst]. rewrite lookup_insert_eq.
  cbn in Hclosed. injection Hclosed as Hclosed. cbn [closed fmap option_fmap option_map].
  split_and!; [by exists err|done|by rewrite Hclosed|by rewrite Hclosed].
Qed.

(** A copy that fails: the client takes two more bytes. *)
Lemma ReadCloser_closes_reader_witness :
  let io := mkIO (mkWriter "" (Some 2%nat)) {[ 7%nat := mkReader ["hello"; "world"] None 0 ]} in
  let out := copyReadCloser 7 io in
  out.2 = Ok (Some ErrShortWrite)
  ∧ written (dst out.1) = "he"
  ∧ closed <$> (heap out.1 !! 7%nat) = Some 1%nat.
Proof.
  intros io out.
  destruct (ReadCloser_closes_reader 7 (mkReader ["hello"; "world"] None 0) io (Code StatusOK)
              eq_refl) as (_ & _ & _ & Hclosed & _).
  split_and!; [reflexivity|reflexivity|exact Hclosed].
Defined.

(** A copy that succeeds closes the reader as well. *)
Example ReadCloser_closes_after_success :
  let io := mkIO bytes_Buffer {[ 7%nat := mkReader ["hello"; "world"] None 0 ]} in
  let out := copyReadCloser 7 io in
  out.2 = Ok None
  ∧ written (dst out.1) = "helloworld"
  ∧ closed <$> (heap out.1 !! 7%nat) = Some 1%nat.
Proof. by vm_compute. Qed.

(** A read error ends the copy with that error, and the reader is closed. *)
Example ReadCloser_closes_after_read_error :
  let io := mkIO bytes_Buffer
              {[ 7%nat := mkReader ["hello"] (Some (errorString "unexpected EOF")) 0 ]} in
  let out := copyReadCloser 7 io in
  out.2 = Ok (Some (errorString "unexpected EOF"))
  ∧ closed <$> (heap out.1 !! 7%nat) = Some 1%nat.
Proof. by vm_compute. Qed.

(** ** [Error] *)

(** C9: [Error] on a [Response] without a body closure calls the nil
    [Copy] and panics; it returns no string. *)
Theorem Error_without_body_panics (r : Response) (h : gmap nat io_Reader) :
  Response_Copy r = None →
  Response_Error r h = (h, Panic nil_dereference).
Proof. intros Hc. unfold Response_Error. by rewrite Hc. Qed.

Lemma Error_without_body_panics_witness :
  Response_Error (Code 404) ∅ = (∅, Panic nil_dereference).
Proof. exact (Error_without_body_panics (Code 404) ∅ eq_refl). Defined.

(** With a body closure that returns, [Error] returns a string: the bytes
    the closure wrote, or the message of its error after a prefix. *)
Lemma Error_with_body_returns (r : Response) (h : gmap nat io_Reader)
  (copy : Go IO (option go_error)) :
  Response_Copy r = Some copy →
  is_Ok (copy (mkIO bytes_Buffer h)).2 →
  is_Ok (Response_Error r h).2.
Proof.
  intros Hc Hok. unfold Response_Error. rewrite Hc.
  destruct (copy _) as [b [[e|]|msg]]; done.
Qed.

Example Error_of_Text :
  Response_Error (Text "not found" (Code 404)) ∅ = (∅, Ok "not found").
Proof. reflexivity. Qed.

(** ** Body setters and headers *)

(** C10: each of [Text], [Reader], [ReadCloser] and [JSON] installs its own
    body closure in place of the one before; the first three leave the
    headers as they are and [JSON] only assigns ["Content-Type"], so no key
    is removed.  [Code(c).JSON(v).Text(s)] therefore has the closure of
    [Text] and still the header [Content-Type: application/json]. *)
Theorem body_setters_replace_body_keep_headers (enc : any → go_error + string)
  (r : Response) :
  (∀ s, Response_Copy (Text s r) = Some (copyText s)
        ∧ Response_headers (Text s r) = Response_headers r)
  ∧ (∀ rd, Response_Copy (Reader rd r) = Some (copyReader rd)
           ∧ Response_headers (Reader rd r) = Response_headers r)
  ∧ (∀ rd, Response_Copy (ReadCloser rd r) = Some (copyReadCloser rd)
           ∧ Response_headers (ReadCloser rd r) = Response_headers r)
  ∧ (∀ v r', JSON enc v r = Ok r' →
       Response_Copy r' = Some (copyJSON enc v)
       ∧ entries (Response_headers r')
         = <["Content-Type" := "application/json"]> (entries (Response_headers r))
       ∧ ∀ k, is_Some (entries (Response_headers r) !! k) →
              is_Some (entries (Response_headers r') !! k))
  ∧ (∀ c v s, ∃ r1, JSON enc v (Code c) = Ok r1
       ∧ Response_Copy (Text s r1) = Some (copyText s)
       ∧ Response_headers (Text s r1) = Some content_type_json).
Proof.
  split_and!; try done.
  - intros v r' Hj. unfold JSON in Hj.
    destruct (Response_headers r) as [h|] eqn:Hh; [|done].
    injection Hj as <-. unfold entries. cbn [Response_Copy Response_headers from_option id].
    split_and!; [done..|]. intros k Hk.
    destruct (decide (k = "Content-Type")) as [->|Hne].
    + rewrite lookup_insert_eq. by eexists.
    + by rewrite lookup_insert_ne.
  - intros c v s. by eexists.
Qed.

(** * Further properties *)

(** ** Strings *)

Lemma string_app_cons (a : Ascii.ascii) (s t : string) :
  String a s +:+ t = String a (s +:+ t).
Proof. reflexivity. Qed.

Lemma string_app_assoc (s t u : string) : (s +:+ t) +:+ u = s +:+ (t +:+ u).
Proof.
  induction s as [|a s IH]; [reflexivity|]. by rewrite !string_app_cons, IH.
Qed.

Lemma string_app_nil_r (s : string) : s +:+ "" = s.
Proof.
  induction s as [|a s IH]; [reflexivity|]. by rewrite string_app_cons, IH.
Qed.

(** ** [io.Copy] into a writer that never fails *)

Lemma copy_chunks_unbounded (chunks : list string) (text : string) :
  copy_chunks chunks (mkWriter text None)
  = (mkWriter (text +:+ joined chunks) None, [], None).
Proof.
  revert text. induction chunks as [|c chunks IH]; intros text.
  - cbn [copy_chunks joined foldr]. by rewrite string_app_nil_r.
  - cbn [copy_chunks]. unfold Writer_Write. cbn [room written].
    rewrite IH. cbn [joined foldr]. by rewrite string_app_assoc.
Qed.

Lemma io_Copy_unbounded (reader : nat) (rd : io_Reader) (text : string)
  (h : gmap nat io_Reader) :
  h !! reader = Some rd →
  io_Copy reader (mkIO (mkWriter text None) h)
  = (mkIO (mkWriter (text +:+ joined (pending rd)) None)
          (<[reader := mkReader [] (fault rd) (closed rd)]> h),
     Ok (fault rd)).
Proof.
  intros Hrd. unfold io_Copy. cbn [heap dst]. rewrite Hrd.
  by rewrite copy_chunks_unbounded.
Qed.

(** ** [Error] on the bodies the package installs *)

(** [Error] gives back the text a [Response] was given by [Text], whatever
    its code and headers, and touches no reader. *)
Theorem Error_Text_roundtrip (s : string) (r : Response) (h : gmap nat io_Reader) :
  Response_Error (Text s r) h = (h, Ok s).
Proof. reflexivity. Qed.

(** [Error] on a [Response] built by [JSON] returns the encoded text, or,
    when the value cannot be encoded, the message of the encoder's error
    after the prefix; it does not panic. *)
Theorem Error_JSON (enc : any → go_error + string) (v : any) (r r' : Response)
  (h : gmap nat io_Reader) :
  JSON enc v r = Ok r' →
  Response_Error r' h
  = (h, Ok match enc v with
           | inr text => text
           | inl e => reading_prefix +:+ error_Error e
           end).
Proof.
  intros Hj. unfold JSON in Hj. destruct (Response_headers r); [|done].
  injection Hj as <-. unfold Response_Error, copyJSON. cbn [Response_Copy].
  destruct (enc v) as [e|text]; reflexivity.
Qed.

Lemma Error_JSON_witness :
  let enc := λ v : any, match v with
                        | any_string s => inr s
                        | _ => inl (errorString "unsupported type")
                        end in
  (∃ r', JSON enc (any_string "ok") (Code 200) = Ok r'
         ∧ Response_Error r' ∅ = (∅, Ok "ok"))
  ∧ (∃ r', JSON enc any_nil (Code 200) = Ok r'
           ∧ Response_Error r' ∅
             = (∅, Ok "reading all bytes from Reader: unsupported type")).
Proof.
  intros enc. split; eexists; (split; [reflexivity|]).
  - exact (Error_JSON enc (any_string "ok") (Code 200) _ ∅ eq_refl).
  - exact (Error_JSON enc any_nil (Code 200) _ ∅ eq_refl).
Defined.

(** [Error] on a [Response] built by [Reader] reads the reader to its end:
    it returns all the bytes the reader had (or the message of the read
    error after the prefix), leaves the reader empty and open, and a second
    call finds nothing left to read. *)
Theorem Error_Reader_drains (reader : nat) (rd : io_Reader) (r : Response)
  (h : gmap nat io_Reader) :
  h !! reader = Some rd →
  let h' := <[reader := mkReader [] (fault rd) (closed rd)]> h in
  Response_Error (Reader reader r) h
  = (h', Ok match fault rd with
            | None => joined (pending rd)
            | Some e => reading_prefix +:+ error_Error e
            end)
  ∧ Response_Error (Reader reader r) h'
    = (h', Ok match fault rd with
              | None => ""
              | Some e => reading_prefix +:+ error_Error e
              end).
Proof.
  intros Hrd h'. unfold Response_Error, Reader, copyReader. cbn [Response_Copy].
  unfold bytes_Buffer. split.
  - rewrite (io_Copy_unbounded reader rd "" h Hrd). cbn [heap dst written].
    by destruct (fault rd).
  - rewrite (io_Copy_unbounded reader (mkReader [] (fault rd) (closed rd)) "" h')
      by apply lookup_insert_eq.
    cbn [heap dst written pending fault closed joined foldr].
    unfold h'. rewrite insert_insert_eq. by destruct (fault rd).
Qed.

Lemma Error_Reader_drains_witness :
  let h : gmap nat io_Reader := {[ 3%nat := mkReader ["ab"; "cd"] None 0 ]} in
  let h' : gmap nat io_Reader := {[ 3%nat := mkReader [] None 0 ]} in
  Response_Error (Reader 3 (Code 200)) h = (h', Ok "abcd")
  ∧ Response_Error (Reader 3 (Code 200)) h' = (h', Ok "").
Proof.
  intros h h'.
  exact (Error_Reader_drains 3 (mkReader ["ab"; "cd"] None 0) (Code 200) h eq_refl).
Defined.

(** [Error] on a [Response] built by [ReadCloser] returns what it returns
    for [Reader] and closes the reader, so the body is gone for a later
    response. *)
Theorem Error_ReadCloser_closes (reader : nat) (rd : io_Reader) (r : Response)
  (h : gmap nat io_Reader) :
  h !! reader = Some rd →
  Response_Error (ReadCloser reader r) h
  = (<[reader := mkReader [] (fault rd) (S (closed rd))]> h,
     (Response_Error (Reader reader r) h).2).
Proof.
  intros Hrd. unfold Response_Error, ReadCloser, Reader, copyReadCloser, copyReader, defer_.
  cbn [Response_Copy]. unfold bytes_Buffer.
  rewrite (io_Copy_unbounded reader rd "" h Hrd). unfold Reader_Close.
  cbn [heap dst written]. rewrite lookup_insert_eq, insert_insert_eq.
  cbn [pending fault closed heap dst written]. by destruct (fault rd).
Qed.

Lemma Error_ReadCloser_closes_witness :
  let h : gmap nat io_Reader := {[ 3%nat := mkReader ["ab"; "cd"] None 0 ]} in
  Response_Error (ReadCloser 3 (Code 200)) h
  = ({[ 3%nat := mkReader [] None 1 ]}, Ok "abcd").
Proof.
  intros h.
  exact (Error_ReadCloser_closes 3 (mkReader ["ab"; "cd"] None 0) (Code 200) h eq_refl).
Defined.

(** ** Builders *)

(** On a [Response] whose header map is nil (a literal [&Response{...}])
    [JSON] panics on the assignment to the map, while [Headers] with a
    non-nil map adopts that map, after which [JSON] succeeds; [Headers]
    with a nil map leaves the header map nil. *)
Theorem JSON_needs_header_map (enc : any → go_error + string) (ord : list nat) (v : any)
  (r : Response) :
  Response_headers r = None →
  JSON enc v r = Panic nil_map_assignment
  ∧ (∀ m, JSON enc v (Headers ord (Some m) r)
          = Ok (mkResponse (Response_Code r)
                  (Some (<["Content-Type" := "application/json"]> m))
                  (Some (copyJSON enc v))))
  ∧ JSON enc v (Headers ord None r) = Panic nil_map_assignment.
Proof.
  intros Hh. unfold JSON, Headers. rewrite Hh. cbn [Response_headers Response_Code].
  done.
Qed.

Lemma JSON_needs_header_map_witness :
  let enc := λ _ : any, inr "{}" in
  let r := mkResponse 200 None None in
  JSON enc any_nil r = Panic nil_map_assignment
  ∧ is_Ok (JSON enc any_nil (Headers [] (Some ∅) r)).
Proof.
  intros enc r.
  destruct (JSON_needs_header_map enc [] any_nil r eq_refl) as (Hp & Hok & _).
  split; [exact Hp|]. by rewrite Hok.
Defined.

(** [Code] always yields a header map, so [JSON] never panics on a
    [Response] built from [Code] through [Headers], [Text], [Reader] and
    [ReadCloser], and neither does [ErrorJSONCode.JSON]. *)
Theorem JSON_after_Code_returns (enc : any → go_error + string) (c : Z) (v : any)
  (ord : list nat) (m : go_map) (s : string) (rd : nat) (e : ErrorJSONCode)
  (extra : list any) :
  is_Ok (JSON enc v (Code c))
  ∧ is_Ok (JSON enc v (Headers ord m (Code c)))
  ∧ is_Ok (JSON enc v (Text s (Code c)))
  ∧ is_Ok (JSON enc v (Reader rd (Code c)))
  ∧ is_Ok (JSON enc v (ReadCloser rd (Code c)))
  ∧ is_Ok (ErrorJSONCode_JSON enc e extra).
Proof. done. Qed.

(** The content type set by [JSON] replaces one set by an earlier
    [Headers] and is replaced by one set by a later [Headers]; the other
    headers are the ones given. *)
Theorem JSON_Headers_content_type (enc : any → go_error + string) (ord : list nat)
  (m : go_map) (c : Z) (v : any) :
  (∃ r1, JSON enc v (Headers ord m (Code c)) = Ok r1
         ∧ entries (Response_headers r1)
           = <["Content-Type" := "application/json"]> (entries m))
  ∧ (∃ r2, JSON enc v (Code c) = Ok r2
           ∧ entries (Response_headers (Headers ord m r2))
             = entries m ∪ {[ "Content-Type" := "application/json" ]}
           ∧ entries (Response_headers (Headers ord m r2)) !! "Content-Type"
             = Some (default "application/json" (entries m !! "Content-Type"))).
Proof.
  split.
  - eexists. split; [reflexivity|]. unfold entries at 1.
    cbn [Headers Code Response_headers from_option id].
    by rewrite foldl_insert_range, (right_id_L ∅ (∪)).
  - exists (mkResponse c (Some (<["Content-Type" := "application/json"]> ∅))
              (Some (copyJSON enc v))).
    split; [reflexivity|]. rewrite Headers_entries. unfold entries at 2.
    cbn [Response_headers from_option id]. rewrite insert_empty.
    split; [done|]. rewrite lookup_union.
    destruct (entries m !! "Content-Type"); [done|].
    rewrite (left_id_L None (∪)). reflexivity.
Qed.

(** Calling [Headers] again with the same map, or with an empty or nil
    map, changes no header. *)
Theorem Headers_idempotent (ord1 ord2 : list nat) (m : go_map) (r : Response) :
  entries (Response_headers (Headers ord2 m (Headers ord1 m r)))
    = entries (Response_headers (Headers ord1 m r))
  ∧ entries (Response_headers (Headers ord1 None r)) = entries (Response_headers r)
  ∧ entries (Response_headers (Headers ord1 (Some ∅) r)) = entries (Response_headers r).
Proof.
  rewrite !Headers_entries. split_and!.
  - by rewrite (assoc_L (∪)), (idemp_L (∪)).
  - unfold entries at 1. cbn [from_option id]. apply (left_id_L ∅ (∪)).
  - unfold entries at 1. cbn [from_option id]. apply (left_id_L ∅ (∪)).
Qed.

(** Two [Headers] calls whose maps share no key give the same headers in
    either order. *)
Theorem Headers_commute (o1 o2 o3 o4 : list nat) (m1 m2 : go_map) (r : Response) :
  entries m1 ##ₘ entries m2 →
  entries (Response_headers (Headers o1 m1 (Headers o2 m2 r)))
  = entries (Response_headers (Headers o3 m2 (Headers o4 m1 r))).
Proof.
  intros Hdisj. rewrite !Headers_entries, !(assoc_L (∪)).
  f_equal. by apply map_union_comm.
Qed.

Lemma Headers_commute_witness :
  let m1 : go_map := Some {[ "A" := "1" ]} in
  let m2 : go_map := Some {[ "B" := "2" ]} in
  entries (Response_headers (Headers [] m1 (Headers [] m2 (Code 200))))
  = entries (Response_headers (Headers [1%nat] m2 (Headers [] m1 (Code 200)))).
Proof.
  intros m1 m2. apply (Headers_commute [] [] [1%nat] [] m1 m2 (Code 200)).
  apply map_disjoint_singleton_l, lookup_singleton_ne. done.
Defined.

(** [ErrorJSONCode.JSON] reads the first element of [extra] only, treats an
    explicit nil as no payload, and never reads the [Extra] field of the
    code. *)
Theorem ErrorJSONCode_JSON_reads (enc : any → go_error + string) (c : string) (st : Z)
  (x v : any) (rest extra : list any) :
  ErrorJSONCode_JSON enc (NewCode c st) (v :: rest) = ErrorJSONCode_JSON enc (NewCode c st) [v]
  ∧ ErrorJSONCode_JSON enc (NewCode c st) (any_nil :: rest)
    = ErrorJSONCode_JSON enc (NewCode c st) []
  ∧ ErrorJSONCode_JSON enc (mkErrorJSONCode c st x) extra
    = ErrorJSONCode_JSON enc (NewCode c st) extra.
Proof. done. Qed.

(** ** The calls of [fireAfterMiddleware] *)

(** Every header of the [Response] is set exactly once, in some order, and
    before anything else is done: the calls made start with one
    [Header().Set] per entry of the header map, with distinct keys. *)
Theorem resolver_sets_each_header_once (D : go_error → Response) (ord : list nat)
  (res : Response) (r : Request) (s : World) :
  let s' := (fireAfterMiddleware D ord (Some (error_Response res)) r s).1 in
  count is_CallHeaderSet (calls s')
    = (count is_CallHeaderSet (calls s) + size (entries (Response_headers res)))%nat
  ∧ range ord (Response_headers res) ≡ₚ map_to_list (entries (Response_headers res))
  ∧ NoDup (range ord (Response_headers res)).*1
  ∧ ∃ t, calls s' = calls s ++ header_calls (range ord (Response_headers res)) ++ t
         ∧ count is_CallHeaderSet t = 0%nat.
Proof.
  cbv zeta. split_and!; [|apply range_Permutation|apply range_NoDup_keys|].
  - destruct (Response_Copy res) as [copy|] eqn:Hc.
    + rewrite (fire_Response_Copy D ord res r s copy Hc). cbv zeta.
      destruct (copy _) as [io [e'|msg]];
        cbn [fst copied copy_panicked committed calls rw];
        try destruct e'; count_calls;
        rewrite count_header_calls_self, length_range; lia.
    + rewrite fire_Response_no_Copy by done. cbn [fst committed calls].
      count_calls. rewrite count_header_calls_self, length_range. lia.
  - destruct (Response_Copy res) as [copy|] eqn:Hc.
    + rewrite (fire_Response_Copy D ord res r s copy Hc). cbv zeta.
      destruct (copy _) as [io [e'|msg]];
        cbn [fst copied copy_panicked committed calls rw];
        rewrite <- !app_assoc; (eexists; split; [reflexivity|]);
        try destruct e'; count_calls.
    + rewrite fire_Response_no_Copy by done. cbn [fst committed calls].
      eexists; split; [reflexivity|]. count_calls.
Qed.

(** When the body closure returns, the calls are, in this order: the
    headers, the status line, the closure, [CopyErrorHandler] if and only
    if the closure returned an error (once, with that error), and
    [DefaultAfterMiddleware] with the writer as the closure left it.  The
    status line written before the copy, with the header map the loop
    left, is not touched by a failed copy. *)
Theorem resolver_call_order (D : go_error → Response) (ord : list nat) (res : Response)
  (r : Request) (s : World) (copy : Go IO (option go_error)) (io : IO)
  (err : option go_error) :
  Response_Copy res = Some copy →
  copy (mkIO (conn (rw s)) (readers s)) = (io, Ok err) →
  let out := fireAfterMiddleware D ord (Some (error_Response res)) r s in
  let hdr := applied_headers ord (Response_headers res) (Header (rw s)) in
  out.2 = Ok tt
  ∧ rw out.1
    = mkResponseWriter hdr (wroteHeader (rw s) ++ [(Response_Code res, hdr)]) (dst io)
  ∧ readers out.1 = heap io
  ∧ calls out.1
    = calls s ++ header_calls (range ord (Response_headers res))
        ++ [CallWriteHeader (Response_Code res); CallCopy]
        ++ match err with Some e => [CallCopyErrorHandler e] | None => [] end
        ++ [CallDefaultAfterMiddleware (rw out.1) r res].
Proof.
  intros Hc Hcopy. cbv zeta. rewrite (fire_Response_Copy D ord res r s copy Hc).
  cbv zeta. unfold committed. cbn [rw readers conn]. rewrite Hcopy.
  cbn [fst snd copied rw readers calls Header wroteHeader]. split_and!; try done.
  by rewrite <- !app_assoc.
Qed.

Lemma resolver_call_order_witness :
  let res := Text "gone" (Headers [] (Some {[ "X-A" := "1" ]}) (Code 410)) in
  let s := mkWorld (mkResponseWriter ∅ [] (mkWriter "" (Some 2%nat))) ∅ [] in
  let w' := mkResponseWriter {[ "X-A" := "1" ]} [(410, {[ "X-A" := "1" ]})]
              (mkWriter "go" (Some 0%nat)) in
  calls (fireAfterMiddleware DefaultErrorHandler_init [] (Some (error_Response res))
           (mkRequest "GET" "/") s).1
  = [CallHeaderSet "X-A" "1"; CallWriteHeader 410; CallCopy;
     CallCopyErrorHandler ErrShortWrite;
     CallDefaultAfterMiddleware w' (mkRequest "GET" "/") res].
Proof.
  intros res s w'.
  destruct (resolver_call_order DefaultErrorHandler_init [] res (mkRequest "GET" "/") s
              (copyText "gone") (mkIO (mkWriter "go" (Some 0%nat)) ∅) (Some ErrShortWrite)
              eq_refl eq_refl) as (_ & _ & _ & Hcalls).
  exact Hcalls.
Defined.

(** When the body closure panics, the panic leaves [fireAfterMiddleware]
    after the headers and the status line were written: neither
    [CopyErrorHandler] nor [DefaultAfterMiddleware] is called. *)
Theorem resolver_copy_panic (D : go_error → Response) (ord : list nat) (res : Response)
  (r : Request) (s : World) (copy : Go IO (option go_error)) (io : IO) (msg : string) :
  Response_Copy res = Some copy →
  copy (mkIO (conn (rw s)) (readers s)) = (io, Panic msg) →
  let out := fireAfterMiddleware D ord (Some (error_Response res)) r s in
  let hdr := applied_headers ord (Response_headers res) (Header (rw s)) in
  out.2 = Panic msg
  ∧ wroteHeader (rw out.1) = wroteHeader (rw s) ++ [(Response_Code res, hdr)]
  ∧ calls out.1
    = calls s ++ header_calls (range ord (Response_headers res))
        ++ [CallWriteHeader (Response_Code res); CallCopy].
Proof.
  intros Hc Hcopy. cbv zeta. rewrite (fire_Response_Copy D ord res r s copy Hc).
  cbv zeta. unfold committed. cbn [rw readers conn]. rewrite Hcopy.
  cbn [fst snd copy_panicked rw readers calls Header wroteHeader]. split_and!; try done.
  by rewrite <- !app_assoc.
Qed.

(** [Reader] with a nil reader. *)
Lemma resolver_copy_panic_witness :
  let s := mkWorld (mkResponseWriter ∅ [] bytes_Buffer) ∅ [] in
  let out := fireAfterMiddleware DefaultErrorHandler_init []
               (Some (error_Response (Reader 7 (Code 200)))) (mkRequest "GET" "/") s in
  out.2 = Panic nil_dereference
  ∧ wroteHeader (rw out.1) = [(200, ∅)]
  ∧ calls out.1 = [CallWriteHeader 200; CallCopy].
Proof.
  intros s.
  exact (resolver_copy_panic DefaultErrorHandler_init [] (Reader 7 (Code 200))
           (mkRequest "GET" "/") s (copyReader 7) (mkIO bytes_Buffer ∅) nil_dereference
           eq_refl eq_refl).
Defined.

Lemma after_hook_once_with_body_witness :
  let res := Text "gone" (Code 410) in
  let s := mkWorld (mkResponseWriter ∅ [] (mkWriter "" (Some 2%nat))) ∅ [] in
  let s' := (fireAfterMiddleware DefaultErrorHandler_init [] (Some (error_Response res))
               (mkRequest "GET" "/") s).1 in
  count is_CallDefaultAfterMiddleware (calls s') = 1%nat
  ∧ last (calls s') = Some (CallDefaultAfterMiddleware (rw s') (mkRequest "GET" "/") res).
Proof.
  intros res s.
  exact (after_hook_once_with_body DefaultErrorHandler_init [] res (mkRequest "GET" "/") s
           (copyText "gone") eq_refl I).
Defined.

Lemma Error_with_body_returns_witness :
  is_Ok (Response_Error (Text "gone" (Code 410)) ∅).2.
Proof.
  exact (Error_with_body_returns (Text "gone" (Code 410)) ∅ (copyText "gone") eq_refl I).
Defined.

(** A [Response] without a body closure ([Code], [NoContent], with or
    without [Headers]) has its headers and status written and nothing else:
    no byte reaches the connection and no reader is touched. *)
Theorem resolver_no_body (D : go_error → Response) (ord : list nat) (res : Response)
  (r : Request) (s : World) :
  Response_Copy res = None →
  let out := fireAfterMiddleware D ord (Some (error_Response res)) r s in
  let hdr := applied_headers ord (Response_headers res) (Header (rw s)) in
  out.2 = Ok tt
  ∧ rw out.1
    = mkResponseWriter hdr (wroteHeader (rw s) ++ [(Response_Code res, hdr)]) (conn (rw s))
  ∧ readers out.1 = readers s
  ∧ calls out.1
    = calls s ++ header_calls (range ord (Response_headers res))
        ++ [CallWriteHeader (Response_Code res)].
Proof.
  intros Hc. cbv zeta. by rewrite fire_Response_no_Copy.
Qed.

Lemma resolver_no_body_witness :
  let s := mkWorld (mkResponseWriter {[ "Server" := "go" ]} [] (mkWriter "" (Some 5%nat)))
             {[ 3%nat := mkReader ["ab"] None 0 ]} [] in
  let out := fireAfterMiddleware DefaultErrorHandler_init [] (Some (error_Response NoContent))
               (mkRequest "GET" "/") s in
  rw out.1 = mkResponseWriter {[ "Server" := "go" ]} [(StatusOK, {[ "Server" := "go" ]})]
               (mkWriter "" (Some 5%nat))
  ∧ readers out.1 = readers s
  ∧ calls out.1 = [CallWriteHeader StatusOK].
Proof.
  intros s.
  destruct (resolver_no_body DefaultErrorHandler_init [] NoContent (mkRequest "GET" "/") s
              eq_refl) as (_ & Hrw & Hrd & Hcalls).
  split_and!; [exact Hrw|exact Hrd|exact Hcalls].
Defined.

(** ** Whole responses *)

(** With the initial [DefaultErrorHandler], a handler that returns an
    error which is not a [Response] is answered, on a connection that takes
    the bytes, with status 400 and the message of the error as the body; no
    header is set, the copy-error hook is not called and the after-hook is
    called once, last. *)
Theorem default_error_response (ord : list nat) (h : Handler) (E : go_error)
  (r : Request) (s : World) (w1 : ResponseWriter) (rd1 : gmap nat io_Reader) :
  h r (rw s, readers s) = ((w1, rd1), Ok (Some (error_other E))) →
  room (conn w1) = None →
  let out := H DefaultErrorHandler_init ord h r s in
  out.2 = Ok tt
  ∧ rw out.1
    = mkResponseWriter (Header w1) (wroteHeader w1 ++ [(StatusBadRequest, Header w1)])
        (mkWriter (written (conn w1) +:+ error_Error E) None)
  ∧ readers out.1 = rd1
  ∧ calls out.1
    = calls s ++ [CallWriteHeader StatusBadRequest; CallCopy;
                  CallDefaultAfterMiddleware (rw out.1) r (DefaultErrorHandler_init E)].
Proof.
  intros Hh Hroom. cbv zeta. rewrite (H_returned _ ord h r s w1 rd1 _ Hh), fire_other.
  destruct w1 as [hd wh [text rm]]. cbn [conn room] in Hroom. subst rm.
  rewrite (fire_Response_Copy _ ord _ r _ (copyText (error_Error E))) by done.
  cbv zeta. unfold committed, DefaultErrorHandler_init, Text, Code.
  cbn [Response_headers Response_Code rw readers conn Header wroteHeader calls].
  rewrite applied_headers_empty, range_empty. cbn. by rewrite <- !app_assoc.
Qed.

Lemma default_error_response_witness :
  let s := mkWorld (mkResponseWriter ∅ [] bytes_Buffer) ∅ [] in
  let out := H DefaultErrorHandler_init []
               (λ _, ret (Some (error_other (errorString "plain text and returns a 400"))))
               (mkRequest "GET" "/hello") s in
  rw out.1 = mkResponseWriter ∅ [(400, ∅)] (mkWriter "plain text and returns a 400" None).
Proof.
  intros s.
  destruct (default_error_response []
              (λ _, ret (Some (error_other (errorString "plain text and returns a 400"))))
              (errorString "plain text and returns a 400") (mkRequest "GET" "/hello") s
              (rw s) (readers s) eq_refl eq_refl) as (_ & Hrw & _).
  exact Hrw.
Defined.

(** A handler that returns [NewCode(c, st).JSON(extra...)] is answered, when
    the map encodes to [text] and the connection takes the bytes, with the
    header [Content-Type: application/json] set over the writer's headers,
    status [st] and body [text]; the copy-error hook is not called. *)
Theorem ErrorJSONCode_response (enc : any → go_error + string) (D : go_error → Response)
  (ord : list nat) (h : Handler) (c : string) (st : Z) (extra : list any)
  (res : Response) (text : string) (r : Request) (s : World)
  (w1 : ResponseWriter) (rd1 : gmap nat io_Reader) :
  ErrorJSONCode_JSON enc (NewCode c st) extra = Ok res →
  h r (rw s, readers s) = ((w1, rd1), Ok (Some (error_Response res))) →
  enc (any_map (ErrorJSONCode_json (NewCode c st) extra)) = inr text →
  room (conn w1) = None →
  let out := H D ord h r s in
  let hdr := <["Content-Type" := "application/json"]> (Header w1) in
  out.2 = Ok tt
  ∧ rw out.1
    = mkResponseWriter hdr (wroteHeader w1 ++ [(st, hdr)])
        (mkWriter (written (conn w1) +:+ text) None)
  ∧ readers out.1 = rd1
  ∧ calls out.1
    = calls s ++ [CallHeaderSet "Content-Type" "application/json"; CallWriteHeader st;
                  CallCopy; CallDefaultAfterMiddleware (rw out.1) r res].
Proof.
  intros Hres Hh Henc Hroom. cbv zeta. rewrite (H_returned D ord h r s w1 rd1 _ Hh).
  injection Hres as <-.
  destruct w1 as [hd wh [body rm]]. cbn [conn room] in Hroom. subst rm.
  erewrite (fire_Response_Copy D ord _ r) by reflexivity.
  cbv zeta. unfold committed, Code.
  cbn [Response_headers Response_Code ErrorJSONCode_Status NewCode
       rw readers conn Header wroteHeader calls].
  rewrite insert_empty, applied_headers_singleton, range_singleton,
    canonical_Content_Type.
  unfold copyJSON. rewrite Henc. cbn. by rewrite <- !app_assoc.
Qed.

Lemma ErrorJSONCode_response_witness :
  let enc := λ _ : any, inr "{}" in
  let s := mkWorld (mkResponseWriter ∅ [] bytes_Buffer) ∅ [] in
  let res := mkResponse 404 (Some (<["Content-Type" := "application/json"]> ∅))
               (Some (copyJSON enc (any_map (ErrorJSONCode_json (NewCode "NOT_FOUND" 404) [])))) in
  let out := H DefaultErrorHandler_init [] (λ _, ret (Some (error_Response res)))
               (mkRequest "GET" "/hellox") s in
  rw out.1 = mkResponseWriter {[ "Content-Type" := "application/json" ]}
               [(404, {[ "Content-Type" := "application/json" ]})] (mkWriter "{}" None).
Proof.
  intros enc s res.
  destruct (ErrorJSONCode_response enc DefaultErrorHandler_init []
              (λ _, ret (Some (error_Response res))) "NOT_FOUND" 404 [] res "{}"
              (mkRequest "GET" "/hellox") s (rw s) (readers s)
              eq_refl eq_refl eq_refl eq_refl) as (_ & Hrw & _).
  exact Hrw.
Defined.

(** [JSON] does not encode when the [Response] is built.  A value the
    encoder rejects is found out when the body is copied: by then the
    content type and the status line are written, so the client gets the
    status of the [Response] with an empty body, and the error goes to
    [CopyErrorHandler]. *)
Theorem JSON_encoding_failure_is_late (enc : any → go_error + string)
  (D : go_error → Response) (ord : list nat) (v : any) (e : go_error) (c : Z)
  (r : Request) (s : World) :
  enc v = inl e →
  ∃ res, JSON enc v (Code c) = Ok res
    ∧ let out := fireAfterMiddleware D ord (Some (error_Response res)) r s in
      let hdr := <["Content-Type" := "application/json"]> (Header (rw s)) in
      out.2 = Ok tt
      ∧ rw out.1 = mkResponseWriter hdr (wroteHeader (rw s) ++ [(c, hdr)]) (conn (rw s))
      ∧ calls out.1
        = calls s ++ [CallHeaderSet "Content-Type" "application/json"; CallWriteHeader c;
                      CallCopy; CallCopyErrorHandler e;
                      CallDefaultAfterMiddleware (rw out.1) r res].
Proof.
  intros Henc. eexists. split; [reflexivity|].
  erewrite (fire_Response_Copy D ord _ r) by reflexivity.
  cbv zeta. unfold committed.
  cbn [Code Response_headers Response_Code rw readers conn Header wroteHeader calls].
  rewrite insert_empty, applied_headers_singleton, range_singleton,
    canonical_Content_Type.
  unfold copyJSON. rewrite Henc. destruct s as [[hd wh cn] rd t]. cbn.
  by rewrite <- !app_assoc.
Qed.

Lemma JSON_encoding_failure_is_late_witness :
  let enc := λ _ : any, inl (errorString "json: unsupported value") in
  let s := mkWorld (mkResponseWriter ∅ [] bytes_Buffer) ∅ [] in
  ∃ res, JSON enc (any_int 1) (Code 200) = Ok res
    ∧ rw (fireAfterMiddleware DefaultErrorHandler_init [] (Some (error_Response res))
            (mkRequest "GET" "/") s).1
      = mkResponseWriter {[ "Content-Type" := "application/json" ]}
          [(200, {[ "Content-Type" := "application/json" ]})] bytes_Buffer.
Proof.
  intros enc s.
  destruct (JSON_encoding_failure_is_late enc DefaultErrorHandler_init [] (any_int 1)
              (errorString "json: unsupported value") 200 (mkRequest "GET" "/") s eq_refl)
    as (res & Hres & _ & Hrw & _).
  exists res. split; [exact Hres|exact Hrw].
Defined.

(** On a connection that takes the bytes, a [Response] built by [Reader]
    and one built by [ReadCloser] send the same status, headers and body,
    namely all the bytes of the reader; the one built by [ReadCloser] leaves
    the reader closed once, the other leaves it open. *)
Theorem Reader_and_ReadCloser_responses (D : go_error → Response) (ord : list nat)
  (reader : nat) (rd : io_Reader) (res : Response) (r : Request) (s : World) :
  readers s !! reader = Some rd →
  room (conn (rw s)) = None →
  let a := fireAfterMiddleware D ord (Some (error_Response (Reader reader res))) r s in
  let b := fireAfterMiddleware D ord (Some (error_Response (ReadCloser reader res))) r s in
  a.2 = Ok tt ∧ b.2 = Ok tt
  ∧ rw b.1 = rw a.1
  ∧ written (conn (rw a.1)) = written (conn (rw s)) +:+ joined (pending rd)
  ∧ readers a.1 = <[reader := mkReader [] (fault rd) (closed rd)]> (readers s)
  ∧ readers b.1 = <[reader := mkReader [] (fault rd) (S (closed rd))]> (readers s).
Proof.
  intros Hrd Hroom. cbv zeta. destruct s as [[hd wh [body rm]] rds t].
  cbn [rw conn room readers] in *. subst rm.
  rewrite (fire_Response_Copy D ord (Reader reader res) r _ (copyReader reader))
    by reflexivity.
  rewrite (fire_Response_Copy D ord (ReadCloser reader res) r _ (copyReadCloser reader))
    by reflexivity.
  cbv zeta. unfold committed, copyReadCloser, copyReader, defer_.
  cbn [Reader ReadCloser Response_headers Response_Code
       rw readers conn Header wroteHeader calls].
  rewrite (io_Copy_unbounded reader rd body rds Hrd). unfold Reader_Close.
  cbn [heap dst]. rewrite lookup_insert_eq, insert_insert_eq.
  cbn [fst snd copied rw readers conn Header wroteHeader written dst heap
       pending fault closed].
  done.
Qed.

Lemma Reader_and_ReadCloser_responses_witness :
  let s := mkWorld (mkResponseWriter ∅ [] bytes_Buffer)
             {[ 3%nat := mkReader ["ab"; "cd"] None 0 ]} [] in
  let a := fireAfterMiddleware DefaultErrorHandler_init []
             (Some (error_Response (Reader 3 (Code 200)))) (mkRequest "GET" "/") s in
  let b := fireAfterMiddleware DefaultErrorHandler_init []
             (Some (error_Response (ReadCloser 3 (Code 200)))) (mkRequest "GET" "/") s in
  written (conn (rw a.1)) = "abcd"
  ∧ readers a.1 = {[ 3%nat := mkReader [] None 0 ]}
  ∧ readers b.1 = {[ 3%nat := mkReader [] None 1 ]}.
Proof.
  intros s.
  destruct (Reader_and_ReadCloser_responses DefaultErrorHandler_init [] 3
              (mkReader ["ab"; "cd"] None 0) (Code 200) (mkRequest "GET" "/") s
              eq_refl eq_refl) as (_ & _ & _ & Hw & Ha & Hb).
  split_and!; [exact Hw|exact Ha|exact Hb].
Defined.

(** ** The iteration order does not show *)

(** The [Response] that [Headers] returns does not depend on the order in
    which the loop visits the map. *)
Theorem Headers_order_irrelevant (ord1 ord2 : list nat) (m : go_map) (r : Response) :
  Headers ord1 m r = Headers ord2 m r.
Proof.
  unfold Headers. destruct (Response_headers r) as [h|]; [|done].
  by rewrite !foldl_insert_range.
Qed.

(** For a [Response] whose header keys stay distinct in canonical form,
    what [fireAfterMiddleware] leaves on the writer and in the readers, and
    whether it returns or panics, does not depend on the order in which its
    loop visits the headers; only the order of the [Header().Set] calls
    does.  (Keys that collide in canonical form make the header kept depend
    on the order, see [colliding_keys_depend_on_order].) *)
Theorem resolver_order_irrelevant (D : go_error → Response) (ord1 ord2 : list nat)
  (res : Response) (r : Request) (s : World) :
  distinct_canonical_keys (Response_headers res) →
  let a := fireAfterMiddleware D ord1 (Some (error_Response res)) r s in
  let b := fireAfterMiddleware D ord2 (Some (error_Response res)) r s in
  rw a.1 = rw b.1 ∧ readers a.1 = readers b.1 ∧ a.2 = b.2
  ∧ length (calls a.1) = length (calls b.1).
Proof.
  intros Hnd. cbv zeta. destruct (Response_Copy res) as [copy|] eqn:Hc.
  - rewrite !(fire_Response_Copy D _ res r s copy Hc). cbv zeta.
    unfold committed. cbn [rw readers conn].
    rewrite !applied_headers_distinct by done.
    destruct (copy _) as [io [e'|msg]];
      cbn [fst snd copied copy_panicked rw readers calls Header wroteHeader];
      (split_and!; [done..|]);
      unfold header_calls; rewrite !length_app, !length_fmap, !length_range; done.
  - rewrite !fire_Response_no_Copy by done. unfold committed.
    rewrite !applied_headers_distinct by done.
    cbn [fst snd rw readers calls]. split_and!; [done..|].
    unfold header_calls. rewrite !length_app, !length_fmap, !length_range. done.
Qed.

Lemma resolver_order_irrelevant_witness :
  let res := Text "gone" (Headers [] (Some {[ "x-a" := "1"; "x-b" := "2" ]}) (Code 410)) in
  let s := mkWorld (mkResponseWriter ∅ [] bytes_Buffer) ∅ [] in
  rw (fireAfterMiddleware DefaultErrorHandler_init [0%nat] (Some (error_Response res))
        (mkRequest "GET" "/") s).1
  = rw (fireAfterMiddleware DefaultErrorHandler_init [1%nat] (Some (error_Response res))
          (mkRequest "GET" "/") s).1.
Proof.
  intros res s.
  refine (proj1 (resolver_order_irrelevant DefaultErrorHandler_init [0%nat] [1%nat] res
                   (mkRequest "GET" "/") s _)).
  apply (bool_decide_unpack _). vm_compute. exact I.
Defined.
